(** * units: dimensional analysis and unit conversion (include/units.h)

    A shallow embedding of the compile-time unit algebra and of the
    conversion engine of the header-only library [units.h].

    - [std::ratio<N, D>] template instances are values of the record [ratio];
      two template instances are the same C++ type exactly when the records
      are equal.  The members [::num] and [::den] are the reduced numerator
      and denominator, as the C++ standard prescribes.
    - [base_unit<...>] and [unit<...>] template instances are values of
      [base_unit] and [unit]; the member typedefs are functions on them.
    - the arithmetic type [double] is read as the real numbers [R]:
      rounding is not part of the model.
    - a program the compiler rejects (a failed [static_assert], an empty
      overload set, a missing conversion) is the result [None]. *)

From Stdlib Require Import ZArith Znumtheory Bool List Lia.
From Stdlib Require Import QArith Qreals Qfield Qpower.
From Stdlib Require Import Reals Lra.
From Stdlib Require Import Permutation.
Import ListNotations.

Local Open Scope Z_scope.

(* ------------------------------------------------------------------ *)
(** ** std::ratio *)
(* ------------------------------------------------------------------ *)

Module Ratio.

(** [std::ratio<N, D>]: the two template arguments as written. *)
Record ratio : Type := Ratio { N : Z; D : Z }.

(** [std::ratio<N>] has the default denominator 1. *)
Definition ratio1 (n : Z) : ratio := Ratio n 1.

(** [std::ratio<N, D>::num = sign(N) * sign(D) * abs(N) / gcd(N, D)] *)
Definition num (r : ratio) : Z :=
  (Z.sgn (N r) * Z.sgn (D r) * Z.abs (N r)) ÷ Z.gcd (N r) (D r).

(** [std::ratio<N, D>::den = abs(D) / gcd(N, D)] *)
Definition den (r : ratio) : Z :=
  Z.abs (D r) ÷ Z.gcd (N r) (D r).

(** [std::ratio<N, D>::type], the reduced instance [ratio<num, den>]. *)
Definition reduced (n d : Z) : ratio :=
  Ratio (num (Ratio n d)) (den (Ratio n d)).

(** A [std::ratio] with a zero denominator does not compile. *)
Definition wf (r : ratio) : Prop := D r <> 0.

(** [std::ratio_add<R1, R2>] *)
Definition ratio_add (r1 r2 : ratio) : ratio :=
  reduced (num r1 * den r2 + num r2 * den r1) (den r1 * den r2).

(** [std::ratio_subtract<R1, R2>] *)
Definition ratio_subtract (r1 r2 : ratio) : ratio :=
  reduced (num r1 * den r2 - num r2 * den r1) (den r1 * den r2).

(** [std::ratio_multiply<R1, R2>] *)
Definition ratio_multiply (r1 r2 : ratio) : ratio :=
  reduced (num r1 * num r2) (den r1 * den r2).

(** [std::ratio_divide<R1, R2>]: ill-formed when [R2::num] is zero. *)
Definition ratio_divide (r1 r2 : ratio) : option ratio :=
  if num r2 =? 0 then None
  else Some (reduced (num r1 * den r2) (den r1 * num r2)).

(** [std::is_same<R1, R2>] on two ratio instances. *)
Definition ratio_eqb (r1 r2 : ratio) : bool :=
  (N r1 =? N r2) && (D r1 =? D r2).

(** The rational number a ratio instance denotes. *)
Definition to_Q (r : ratio) : Q :=
  (inject_Z (num r) / inject_Z (den r))%Q.

(** [double(R::num) / R::den] *)
Definition to_R (r : ratio) : R :=
  (IZR (num r) / IZR (den r))%R.

End Ratio.
Import Ratio.

(** Failure of compilation propagates. *)
Notation "x <- e ;; k" :=
  (match e with Some x => k | None => None end)
  (at level 61, e at next level, right associativity).

(* ------------------------------------------------------------------ *)
(** ** base_unit and the unit categories *)
(* ------------------------------------------------------------------ *)

(** [base_unit<Meter, Kilogram, Second, Radian, Ampere, Kelvin, Mole,
    Candela>]: one exponent per base dimension. *)
Record base_unit : Type := mk_base_unit {
  Meter : ratio;
  Kilogram : ratio;
  Second : ratio;
  Radian : ratio;
  Ampere : ratio;
  Kelvin : ratio;
  Mole : ratio;
  Candela : ratio
}.

(** The parameter pack [Exponents...]. *)
Definition Exponents (b : base_unit) : list ratio :=
  [Meter b; Kilogram b; Second b; Radian b; Ampere b; Kelvin b; Mole b;
   Candela b].

(** The pack expansion [base_unit<F<Exponents1, Exponents2>...>]. *)
Definition expand2 (f : ratio -> ratio -> ratio) (b1 b2 : base_unit)
  : base_unit :=
  mk_base_unit (f (Meter b1) (Meter b2)) (f (Kilogram b1) (Kilogram b2))
           (f (Second b1) (Second b2)) (f (Radian b1) (Radian b2))
           (f (Ampere b1) (Ampere b2)) (f (Kelvin b1) (Kelvin b2))
           (f (Mole b1) (Mole b2)) (f (Candela b1) (Candela b2)).

(** The pack expansion [base_unit<F<Exponents>...>]. *)
Definition expand1 (f : ratio -> ratio) (b : base_unit) : base_unit :=
  mk_base_unit (f (Meter b)) (f (Kilogram b)) (f (Second b)) (f (Radian b))
           (f (Ampere b)) (f (Kelvin b)) (f (Mole b)) (f (Candela b)).

(** [std::is_same] on two [base_unit] instances. *)
Definition base_unit_eqb (b1 b2 : base_unit) : bool :=
  forallb (fun p => ratio_eqb (fst p) (snd p))
          (combine (Exponents b1) (Exponents b2)).

Definition wf_base_unit (b : base_unit) : Prop :=
  Forall wf (Exponents b).

(** [base_unit_multiply<U1, U2>] *)
Definition base_unit_multiply : base_unit -> base_unit -> base_unit :=
  expand2 ratio_add.

(** [base_unit_divide<U1, U2>] *)
Definition base_unit_divide : base_unit -> base_unit -> base_unit :=
  expand2 ratio_subtract.

(** [inverse_base<U>] *)
Definition inverse_base : base_unit -> base_unit :=
  expand1 (fun e => ratio_multiply e (ratio1 (-1))).

(** [squared_base<U>] *)
Definition squared_base : base_unit -> base_unit :=
  expand1 (fun e => ratio_multiply e (ratio1 2)).

(** [cubed_base<U>] *)
Definition cubed_base : base_unit -> base_unit :=
  expand1 (fun e => ratio_multiply e (ratio1 3)).

Module category.
Definition r0 := ratio1 0.
Definition r1 := ratio1 1.
Definition scalar_unit := mk_base_unit r0 r0 r0 r0 r0 r0 r0 r0.
Definition dimensionless_unit := scalar_unit.
Definition length_unit := mk_base_unit r1 r0 r0 r0 r0 r0 r0 r0.
Definition mass_unit := mk_base_unit r0 r1 r0 r0 r0 r0 r0 r0.
Definition time_unit := mk_base_unit r0 r0 r1 r0 r0 r0 r0 r0.
Definition angle_unit := mk_base_unit r0 r0 r0 r1 r0 r0 r0 r0.
Definition temperature_unit := mk_base_unit r0 r0 r0 r0 r0 r1 r0 r0.
Definition power_unit :=
  mk_base_unit (ratio1 2) r1 (ratio1 (-3)) r0 r0 r0 r0 r0.
End category.

(* ------------------------------------------------------------------ *)
(** ** unit *)
(* ------------------------------------------------------------------ *)

(** The instances of the class template [unit]: the partial specialisation
    for a [base_unit] second argument, and the primary template, whose second
    argument is itself a [unit]. *)
Inductive unit : Type :=
| unit_of_base (Conversion : ratio) (B : base_unit)
               (PiExponent Translation : ratio)
| unit_of_unit (Conversion : ratio) (BaseUnit : unit)
               (PiExponent Translation : ratio).

(** [unit<...>::base_unit_type] *)
Fixpoint base_unit_type (U : unit) : base_unit :=
  match U with
  | unit_of_base _ B _ _ => B
  | unit_of_unit _ BaseUnit _ _ => base_unit_type BaseUnit
  end.

(** [unit<...>::conversion_ratio] *)
Fixpoint conversion_ratio (U : unit) : ratio :=
  match U with
  | unit_of_base Conversion _ _ _ => Conversion
  | unit_of_unit Conversion BaseUnit _ _ =>
      ratio_multiply (conversion_ratio BaseUnit) Conversion
  end.

(** [unit<...>::pi_exponent_ratio] *)
Fixpoint pi_exponent_ratio (U : unit) : ratio :=
  match U with
  | unit_of_base _ _ PiExponent _ => PiExponent
  | unit_of_unit _ BaseUnit PiExponent _ =>
      ratio_add (pi_exponent_ratio BaseUnit) PiExponent
  end.

(** [unit<...>::translation_ratio] *)
Fixpoint translation_ratio (U : unit) : ratio :=
  match U with
  | unit_of_base _ _ _ Translation => Translation
  | unit_of_unit _ BaseUnit _ Translation =>
      ratio_add (ratio_multiply (conversion_ratio BaseUnit) Translation)
                (translation_ratio BaseUnit)
  end.

(** [base_unit_of<U>] on a [unit]; on a [base_unit] it is the identity. *)
Fixpoint base_unit_of (U : unit) : base_unit :=
  match U with
  | unit_of_base _ B _ _ => B
  | unit_of_unit _ BaseUnit _ _ => base_unit_of BaseUnit
  end.

(** [std::is_same] on two [unit] instances. *)
Fixpoint unit_eqb (U1 U2 : unit) : bool :=
  match U1, U2 with
  | unit_of_base c1 b1 p1 t1, unit_of_base c2 b2 p2 t2 =>
      ratio_eqb c1 c2 && base_unit_eqb b1 b2 && ratio_eqb p1 p2
      && ratio_eqb t1 t2
  | unit_of_unit c1 u1 p1 t1, unit_of_unit c2 u2 p2 t2 =>
      ratio_eqb c1 c2 && unit_eqb u1 u2 && ratio_eqb p1 p2 && ratio_eqb t1 t2
  | _, _ => false
  end.

(** Every [std::ratio] written in the definition of the unit compiles. *)
Fixpoint wf_unit (U : unit) : Prop :=
  match U with
  | unit_of_base c b p t => wf c /\ wf_base_unit b /\ wf p /\ wf t
  | unit_of_unit c u p t => wf c /\ wf_unit u /\ wf p /\ wf t
  end.

(** [unit_multiply<U1, U2>] *)
Definition unit_multiply (Unit1 Unit2 : unit) : unit :=
  unit_of_base
    (ratio_multiply (conversion_ratio Unit1) (conversion_ratio Unit2))
    (base_unit_multiply (base_unit_type Unit1) (base_unit_type Unit2))
    (ratio_add (pi_exponent_ratio Unit1) (pi_exponent_ratio Unit2))
    (ratio1 0).

(** [squared<U>] *)
Definition squared (U : unit) : unit :=
  let Conversion := conversion_ratio U in
  unit_of_base
    (ratio_multiply Conversion Conversion)
    (squared_base (base_unit_type U))
    (ratio_multiply (pi_exponent_ratio U) (ratio1 2))
    (ratio1 0).

(** [cubed<U>] *)
Definition cubed (U : unit) : unit :=
  let Conversion := conversion_ratio U in
  unit_of_base
    (ratio_multiply Conversion (ratio_multiply Conversion Conversion))
    (cubed_base (base_unit_type U))
    (ratio_multiply (pi_exponent_ratio U) (ratio1 3))
    (ratio1 0).

(** [compound_unit<U, Us...>]: [compound_impl<U1, U2, Us...>] is
    [compound_impl<unit_multiply<U1, U2>, Us...>]. *)
Fixpoint compound_unit (U : unit) (Us : list unit) : unit :=
  match Us with
  | [] => U
  | U2 :: Us' => compound_unit (unit_multiply U U2) Us'
  end.

(** [prefix<Ratio, Unit>::type] *)
Definition prefix (r : ratio) (U : unit) : unit :=
  unit_of_unit r U (ratio1 0) (ratio1 0).

(** [is_convertible_unit<U1, U2>] *)
Definition is_convertible_unit (U1 U2 : unit) : bool :=
  base_unit_eqb (base_unit_type U1) (base_unit_type U2).

(* ------------------------------------------------------------------ *)
(** ** The conversion function *)
(* ------------------------------------------------------------------ *)

Module constants.
Definition PI : R := Rtrigo1.PI.
End constants.

(** [std::pow(x, y)] for a positive base. *)
Definition std_pow (x y : R) : R := Rpower x y.

(** [std::log10(x)] *)
Definition std_log10 (x : R) : R := Rlog 10 x.

(** The eight overloads of [_convert]; the three tags are the arguments
    [isSame], [piRequired] and [translationRequired] of the dispatch. *)
Definition _convert (UnitFrom UnitTo : unit) (value : R)
    (isSame piRequired translationRequired : bool) : option R :=
  match isSame, piRequired, translationRequired with
  | true, false, false => Some value
  | true, false, true => Some value
  | true, true, false => Some value
  | true, true, true => Some value
  | false, false, false =>
      Ratio <- ratio_divide (conversion_ratio UnitFrom)
                            (conversion_ratio UnitTo) ;;
      Some (IZR (num Ratio) * value / IZR (den Ratio))%R
  | false, true, false =>
      Ratio <- ratio_divide (conversion_ratio UnitFrom)
                            (conversion_ratio UnitTo) ;;
      let PiRatio := ratio_subtract (pi_exponent_ratio UnitFrom)
                                    (pi_exponent_ratio UnitTo) in
      Some ((IZR (num Ratio) * value / IZR (den Ratio))
            * std_pow constants.PI (IZR (num PiRatio) / IZR (den PiRatio)))%R
  | false, false, true =>
      Ratio <- ratio_divide (conversion_ratio UnitFrom)
                            (conversion_ratio UnitTo) ;;
      Translation <- ratio_divide
                       (ratio_subtract (translation_ratio UnitFrom)
                                       (translation_ratio UnitTo))
                       (conversion_ratio UnitTo) ;;
      Some ((IZR (num Ratio) * value / IZR (den Ratio))
            + (IZR (num Translation) / IZR (den Translation)))%R
  | false, true, true =>
      Ratio <- ratio_divide (conversion_ratio UnitFrom)
                            (conversion_ratio UnitTo) ;;
      Translation <- ratio_divide
                       (ratio_subtract (translation_ratio UnitFrom)
                                       (translation_ratio UnitTo))
                       (conversion_ratio UnitTo) ;;
      let PiRatio := ratio_subtract (pi_exponent_ratio UnitFrom)
                                    (pi_exponent_ratio UnitTo) in
      Some ((IZR (num Ratio) * value / IZR (den Ratio))
            * std_pow constants.PI (IZR (num PiRatio) / IZR (den PiRatio))
            + (IZR (num Translation) / IZR (den Translation)))%R
  end.

(** [convert<UnitFrom, UnitTo>(value)]; the [static_assert] on
    [is_convertible_unit] rejects units of different dimensions. *)
Definition convert (UnitFrom UnitTo : unit) (value : R) : option R :=
  if negb (is_convertible_unit UnitFrom UnitTo) then None
  else
    let isSame := unit_eqb UnitFrom UnitTo in
    let piRequired :=
      negb (ratio_eqb (ratio1 0) (pi_exponent_ratio UnitFrom)
            && ratio_eqb (ratio1 0) (pi_exponent_ratio UnitTo)) in
    let translationRequired :=
      negb (ratio_eqb (ratio1 0) (translation_ratio UnitFrom)
            && ratio_eqb (ratio1 0) (translation_ratio UnitTo)) in
    _convert UnitFrom UnitTo value isSame piRequired translationRequired.

(* ------------------------------------------------------------------ *)
(** ** Non-linear scales *)
(* ------------------------------------------------------------------ *)

(** The class templates usable as the [NonLinearScale] argument. *)
Inductive scale : Type := linear_scale | decibel_scale.

Definition scale_eqb (s1 s2 : scale) : bool :=
  match s1, s2 with
  | linear_scale, linear_scale | decibel_scale, decibel_scale => true
  | _, _ => false
  end.

(** The default constructors [linear_scale()] and [decibel_scale()]:
    the stored [m_value]. *)
Definition scale_default (s : scale) : R :=
  match s with
  | linear_scale => 0%R
  | decibel_scale => 1%R
  end.

(** The constructors [linear_scale(T value)] and [decibel_scale(T value)]:
    the stored [m_value]. *)
Definition scale_value (s : scale) (value : R) : R :=
  match s with
  | linear_scale => value
  | decibel_scale => std_pow 10 (value / 10)
  end.

(** [operator()] of the two scales, on the stored [m_value]. *)
Definition scale_call (s : scale) (m_value : R) : R :=
  match s with
  | linear_scale => m_value
  | decibel_scale => (10 * std_log10 m_value)%R
  end.

(* ------------------------------------------------------------------ *)
(** ** unit_t, the container *)
(* ------------------------------------------------------------------ *)

(** An object of type [unit_t<Units, double, NonLinearScale>]: its two
    template arguments and the inherited member [m_value]. *)
Record unit_t : Type := mk_unit_t {
  unit_type : unit;
  non_linear_scale_type : scale;
  m_value : R
}.

(** [unit_t() : NonLinearScale<T>(0)] *)
Definition unit_t_default (Units : unit) (Nls : scale) : unit_t :=
  mk_unit_t Units Nls (scale_value Nls 0).

(** [unit_t(const Args&... args) : nls(args...)] and, for scalar units,
    [unit_t(Ty rhs) : nls(rhs)], on one arithmetic argument. *)
Definition unit_t_of (Units : unit) (Nls : scale) (value : R) : unit_t :=
  mk_unit_t Units Nls (scale_value Nls value).

(** [ret.m_value = v] on an object [ret]. *)
Definition set_m_value (ret : unit_t) (v : R) : unit_t :=
  mk_unit_t (unit_type ret) (non_linear_scale_type ret) v.

(** [operator()] inherited from the scale: the read-back value. *)
Definition call (q : unit_t) : R :=
  scale_call (non_linear_scale_type q) (m_value q).

Module dimensionless.
Definition scalar : unit :=
  unit_of_base (ratio1 1) category.scalar_unit (ratio1 0) (ratio1 0).
Definition scalar_t (value : R) : unit_t := unit_t_of scalar linear_scale value.
Definition dB_t (value : R) : unit_t := unit_t_of scalar decibel_scale value.
End dimensionless.

(** [is_convertible_unit_t<U1, U2>] *)
Definition is_convertible_unit_t (q1 q2 : unit_t) : bool :=
  is_convertible_unit (unit_type q1) (unit_type q2).

(** [is_scalar_unit<T>] *)
Definition is_scalar_unit (q : unit_t) : bool :=
  base_unit_eqb (base_unit_of (unit_type q)) category.scalar_unit.

(** [has_linear_scale<T...>] *)
Definition has_linear_scale (qs : list unit_t) : bool :=
  forallb (fun q => scale_eqb (non_linear_scale_type q) linear_scale) qs.

(** [has_decibel_scale<T...>] *)
Definition has_decibel_scale (qs : list unit_t) : bool :=
  forallb (fun q => scale_eqb (non_linear_scale_type q) decibel_scale) qs.

(** [is_same_scale<T1, T2>] *)
Definition is_same_scale (q1 q2 : unit_t) : bool :=
  scale_eqb (non_linear_scale_type q1) (non_linear_scale_type q2).

(** The parameter type [const dimensionless::dB_t&] accepts exactly the
    objects of type [unit_t<scalar, double, decibel_scale>]. *)
Definition is_dB_t (q : unit_t) : bool :=
  unit_eqb (unit_type q) dimensionless.scalar
  && scale_eqb (non_linear_scale_type q) decibel_scale.

(** *** Comparisons and conversions of doubles *)

Definition Rltb (x y : R) : bool := if Rlt_dec x y then true else false.
Definition Rleb (x y : R) : bool := if Rle_dec x y then true else false.
Definition Rgtb (x y : R) : bool := if Rgt_dec x y then true else false.
Definition Rgeb (x y : R) : bool := if Rge_dec x y then true else false.
Definition Reqb (x y : R) : bool := if Req_dec_T x y then true else false.

(** The standard conversions [bool -> double] and [double -> bool]. *)
Definition double_of_bool (b : bool) : R := if b then 1%R else 0%R.
Definition bool_of_double (x : R) : bool := negb (Reqb x 0).

(** [operator Ty() const], enabled only for scalar units. *)
Definition to_arithmetic (q : unit_t) : option R :=
  if base_unit_eqb (base_unit_of (unit_type q)) category.scalar_unit
  then convert (unit_type q)
               (unit_of_base (ratio1 1) category.scalar_unit
                             (ratio1 0) (ratio1 0))
               (m_value q)
  else None.

(** A [unit_t] returned from a function whose return type is [bool]. *)
Definition to_bool (q : unit_t) : option bool :=
  x <- to_arithmetic q ;; Some (bool_of_double x).

(** *** The comparison operators of [unit_t] *)

(** [operator<]: the comparison is wrapped in [unit_t(...)], and the
    object is then returned as [bool]. *)
Definition op_lt (lhs rhs : unit_t) : option bool :=
  r <- convert (unit_type rhs) (unit_type lhs) (m_value rhs) ;;
  to_bool (unit_t_of (unit_type lhs) (non_linear_scale_type lhs)
                     (double_of_bool (Rltb (m_value lhs) r))).

Definition op_le (lhs rhs : unit_t) : option bool :=
  r <- convert (unit_type rhs) (unit_type lhs) (m_value rhs) ;;
  Some (Rleb (m_value lhs) r).

Definition op_gt (lhs rhs : unit_t) : option bool :=
  r <- convert (unit_type rhs) (unit_type lhs) (m_value rhs) ;;
  Some (Rgtb (m_value lhs) r).

Definition op_ge (lhs rhs : unit_t) : option bool :=
  r <- convert (unit_type rhs) (unit_type lhs) (m_value rhs) ;;
  Some (Rgeb (m_value lhs) r).

Definition op_eq (lhs rhs : unit_t) : option bool :=
  r <- convert (unit_type rhs) (unit_type lhs) (m_value rhs) ;;
  Some (Reqb (m_value lhs) r).

Definition op_ne (lhs rhs : unit_t) : option bool :=
  r <- convert (unit_type rhs) (unit_type lhs) (m_value rhs) ;;
  Some (negb (Reqb (m_value lhs) r)).

(** *** Arithmetic on two containers *)

(** [operator*] on two [unit_t]: both overloads require linear scales; the
    first is enabled for convertible units, the second for the others. *)
Definition op_mul (lhs rhs : unit_t) : option unit_t :=
  if has_linear_scale [lhs; rhs] then
    if is_convertible_unit_t lhs rhs then
      r <- convert (unit_type rhs) (unit_type lhs) (m_value rhs) ;;
      Some (unit_t_of (compound_unit (squared (unit_type lhs)) [])
                      linear_scale (m_value lhs * r))
    else
      Some (unit_t_of (compound_unit (unit_type lhs) [unit_type rhs])
                      linear_scale (m_value lhs * m_value rhs))
  else None.

(** [operator+] on two [unit_t].  Different scales select the overload whose
    [static_assert] fails.  Two linear scales select the linear overload.
    Two decibel scales select the generic decibel overload, unless one
    operand is a [dB_t] and the other is not scalar: the overloads with a
    [const dB_t&] parameter are then the more specialised ones. *)
Definition op_add (lhs rhs : unit_t) : option unit_t :=
  if negb (is_same_scale lhs rhs) then None
  else if has_linear_scale [lhs; rhs] then
    r <- convert (unit_type rhs) (unit_type lhs) (m_value rhs) ;;
    Some (unit_t_of (unit_type lhs) linear_scale (m_value lhs + r))
  else if has_decibel_scale [lhs] && negb (is_scalar_unit lhs)
          && is_dB_t rhs then
    let ret := unit_t_default (unit_type lhs) decibel_scale in
    Some (set_m_value ret (m_value lhs * m_value rhs))
  else if has_decibel_scale [rhs] && negb (is_scalar_unit rhs)
          && is_dB_t lhs then
    let ret := unit_t_default (unit_type rhs) decibel_scale in
    Some (set_m_value ret (m_value lhs * m_value rhs))
  else if has_decibel_scale [lhs; rhs] then
    let LhsUnits := unit_type lhs in
    let RhsUnits := unit_type rhs in
    let ret := unit_t_default (compound_unit (squared LhsUnits) [])
                              decibel_scale in
    r <- convert RhsUnits LhsUnits (m_value rhs) ;;
    Some (set_m_value ret (m_value lhs * r))
  else None.

(* ------------------------------------------------------------------ *)
(** ** The named units used below *)
(* ------------------------------------------------------------------ *)

Module length.
Definition meters : unit :=
  unit_of_base (ratio1 1) category.length_unit (ratio1 0) (ratio1 0).
Definition feet : unit :=
  unit_of_unit (Ratio 381 1250) meters (ratio1 0) (ratio1 0).
Definition meter_t (value : R) : unit_t := unit_t_of meters linear_scale value.
Definition foot_t (value : R) : unit_t := unit_t_of feet linear_scale value.
End length.

Module time.
Definition seconds : unit :=
  unit_of_base (ratio1 1) category.time_unit (ratio1 0) (ratio1 0).
Definition minutes : unit := unit_of_unit (ratio1 60) seconds (ratio1 0) (ratio1 0).
Definition hours : unit := unit_of_unit (ratio1 60) minutes (ratio1 0) (ratio1 0).
Definition days : unit := unit_of_unit (ratio1 24) hours (ratio1 0) (ratio1 0).
Definition weeks : unit := unit_of_unit (ratio1 7) days (ratio1 0) (ratio1 0).
Definition years : unit := unit_of_unit (ratio1 365) days (ratio1 0) (ratio1 0).
Definition second_t (value : R) : unit_t := unit_t_of seconds linear_scale value.
End time.

Module temperature.
Definition kelvin : unit :=
  unit_of_base (ratio1 1) category.temperature_unit (ratio1 0) (ratio1 0).
Definition celsius : unit :=
  unit_of_unit (ratio1 1) kelvin (ratio1 0) (Ratio 27315 100).
Definition fahrenheit : unit :=
  unit_of_unit (Ratio 5 9) celsius (ratio1 0) (Ratio (-160) 9).
Definition reaumur : unit :=
  unit_of_unit (Ratio 10 8) celsius (ratio1 0) (ratio1 0).
End temperature.

Module power.
Definition watts : unit :=
  unit_of_base (ratio1 1) category.power_unit (ratio1 0) (ratio1 0).
Definition milliwatts : unit := prefix (Ratio 1 1000) watts.
Definition dBW_t (value : R) : unit_t := unit_t_of watts decibel_scale value.
Definition dBm_t (value : R) : unit_t :=
  unit_t_of milliwatts decibel_scale value.
End power.

(* ------------------------------------------------------------------ *)
(** ** The rest of the unit algebra *)
(* ------------------------------------------------------------------ *)

(** [unit_divide<U1, U2>]; [std::ratio_divide] rejects a zero divisor. *)
Definition unit_divide (Unit1 Unit2 : unit) : option unit :=
  c <- ratio_divide (conversion_ratio Unit1) (conversion_ratio Unit2) ;;
  Some (unit_of_base c
          (base_unit_divide (base_unit_type Unit1) (base_unit_type Unit2))
          (ratio_subtract (pi_exponent_ratio Unit1) (pi_exponent_ratio Unit2))
          (ratio1 0)).

(** [inverse<U>]: the conversion factor is
    [std::ratio<conversion_ratio::den, conversion_ratio::num>], which does
    not compile when the numerator is zero. *)
Definition inverse (U : unit) : option unit :=
  if num (conversion_ratio U) =? 0 then None
  else
    Some (unit_of_base
            (Ratio (den (conversion_ratio U)) (num (conversion_ratio U)))
            (inverse_base (base_unit_type U))
            (ratio_multiply (pi_exponent_ratio U) (ratio1 (-1)))
            (ratio1 0)).

(** [_power_unit<k + 1, U>::type]: the specialisation for 1 is [U], and
    [_power_unit<N, U>] is [unit_multiply<U, _power_unit<N - 1, U>>]. *)
Fixpoint _power_unit_succ (k : nat) (U : unit) : unit :=
  match k with
  | O => U
  | S k' => unit_multiply U (_power_unit_succ k' U)
  end.

(** [_power_unit<N, U>::type]; below 1 the recursion never reaches the
    specialisation, and the program does not compile. *)
Definition _power_unit (N : Z) (U : unit) : option unit :=
  if N <? 1 then None else Some (_power_unit_succ (Z.to_nat (N - 1)) U).

(* ------------------------------------------------------------------ *)
(** ** The rest of the container operations *)
(* ------------------------------------------------------------------ *)

(** The converting constructor
    [unit_t(const unit_t<UnitsRhs, Ty, NlsRhs>& rhs)] of
    [unit_t<Units, double, Nls>]. *)
Definition unit_t_from (Units : unit) (Nls : scale) (rhs : unit_t)
  : option unit_t :=
  v <- convert (unit_type rhs) Units (m_value rhs) ;;
  Some (mk_unit_t Units Nls v).

(** [operator=(const unit_t<UnitsRhs, Ty, NlsRhs>& rhs)] *)
Definition assign (this rhs : unit_t) : option unit_t :=
  v <- convert (unit_type rhs) (unit_type this) (m_value rhs) ;;
  Some (set_m_value this v).

(** [operator-] on two [unit_t].  There is no overload for different
    scales.  Of the decibel overloads, the one taking [dB_t] on the left
    declares its result with [unit_t_traits<RhsUnits>::underlying_type],
    which is [void] for a [unit], and does not compile. *)
Definition op_sub (lhs rhs : unit_t) : option unit_t :=
  if has_linear_scale [lhs; rhs] then
    r <- convert (unit_type rhs) (unit_type lhs) (m_value rhs) ;;
    Some (unit_t_of (unit_type lhs) linear_scale (m_value lhs - r))
  else if has_decibel_scale [lhs] && negb (is_scalar_unit lhs)
          && is_dB_t rhs then
    let ret := unit_t_default (unit_type lhs) decibel_scale in
    Some (set_m_value ret (m_value lhs / m_value rhs))
  else if has_decibel_scale [rhs] && negb (is_scalar_unit rhs)
          && is_dB_t lhs then
    None
  else if has_decibel_scale [lhs; rhs] then
    let LhsUnits := unit_type lhs in
    let RhsUnits := unit_type rhs in
    inv <- inverse RhsUnits ;;
    let ret := unit_t_default (compound_unit LhsUnits [inv]) decibel_scale in
    r <- convert RhsUnits LhsUnits (m_value rhs) ;;
    Some (set_m_value ret (m_value lhs / r))
  else None.

(** [operator/] on two [unit_t]: both overloads require linear scales. *)
Definition op_div (lhs rhs : unit_t) : option unit_t :=
  if has_linear_scale [lhs; rhs] then
    if is_convertible_unit_t lhs rhs then
      r <- convert (unit_type rhs) (unit_type lhs) (m_value rhs) ;;
      Some (dimensionless.scalar_t (m_value lhs / r))
    else
      inv <- inverse (unit_type rhs) ;;
      Some (unit_t_of (compound_unit (unit_type lhs) [inv])
                      linear_scale (m_value lhs / m_value rhs))
  else None.

(** [std::pow(double, int)] *)
Definition std_pow_int (x : R) (n : Z) : R := powerRZ x n.

(** [pow<power>(value)], enabled for a linear scale. *)
Definition pow (power : Z) (value : unit_t) : option unit_t :=
  if has_linear_scale [value] then
    U <- _power_unit power (unit_type value) ;;
    Some (unit_t_of U linear_scale (std_pow_int (call value) power))
  else None.

Module angle.
Definition radians : unit :=
  unit_of_base (ratio1 1) category.angle_unit (ratio1 0) (ratio1 0).
Definition degrees : unit :=
  unit_of_unit (Ratio 1 180) radians (ratio1 1) (ratio1 0).
Definition turns : unit :=
  unit_of_unit (ratio1 2) radians (ratio1 1) (ratio1 0).
End angle.

Module concentration.
Definition percent : unit :=
  unit_of_base (Ratio 1 100) category.scalar_unit (ratio1 0) (ratio1 0).
End concentration.

(* ------------------------------------------------------------------ *)
(** ** Descriptors as rational numbers *)
(* ------------------------------------------------------------------ *)

(** A ratio instance in lowest terms with a positive denominator: the form
    of every [std::ratio] that an operation of [<ratio>] returns. *)
Definition canonical (r : ratio) : Prop :=
  0 < D r /\ Z.gcd (N r) (D r) = 1.

(** A unit whose conversion factor is not zero. *)
Definition nonzero_unit (U : unit) : Prop := num (conversion_ratio U) <> 0.

(** The unit with the conversion factor 1 of a dimension, as the catalogue
    defines [meters], [seconds], [kelvin] or [dimensionless::scalar]. *)
Definition coherent_unit (b : base_unit) : unit :=
  unit_of_base (ratio1 1) b (ratio1 0) (ratio1 0).

(** The value of a quantity converted to the coherent unit of its
    dimension. *)
Definition in_base_units (q : unit_t) : option R :=
  convert (unit_type q) (coherent_unit (base_unit_type (unit_type q)))
          (m_value q).

(** A unit without a translation offset. *)
Definition no_translation (U : unit) : Prop :=
  (to_Q (translation_ratio U) == 0)%Q.

(** The dimension vector of a unit: the eight exponents as rationals. *)
Definition dimension (U : unit) : list Q :=
  map to_Q (Exponents (base_unit_type U)).

(** Equality and sum of dimension vectors, exponent by exponent. *)
Definition dim_eq (d1 d2 : list Q) : Prop := Forall2 Qeq d1 d2.

Definition dim_add (d1 d2 : list Q) : list Q :=
  map (fun p => (fst p + snd p)%Q) (combine d1 d2).

(** Closed facts on ratios and units are decided by evaluation. *)
Ltac by_eval := vm_compute; reflexivity.

Ltac solve_wf :=
  cbv;
  repeat match goal with
         | |- _ /\ _ => split
         | |- Forall _ _ => constructor
         | |- _ -> False => discriminate
         end.

(* ------------------------------------------------------------------ *)
(** ** Facts on std::ratio *)
(* ------------------------------------------------------------------ *)

Section RatioFacts.

Example num_den_negative_denominator :
  num (Ratio 2 (-4)) = -1 /\ den (Ratio 2 (-4)) = 2.
Proof. split; reflexivity. Qed.

Example ratio_add_example :
  ratio_add (Ratio 1 2) (Ratio 1 3) = Ratio 5 6.
Proof. reflexivity. Qed.

Example ratio_divide_example :
  ratio_divide (Ratio 1 1) (Ratio 5 9) = Some (Ratio 9 5)
  /\ ratio_divide (Ratio 1 1) (Ratio 0 7) = None.
Proof. split; reflexivity. Qed.

Lemma ratio_eqb_eq (r1 r2 : ratio) : ratio_eqb r1 r2 = true <-> r1 = r2.
Proof.
  destruct r1 as [n1 d1], r2 as [n2 d2]; unfold ratio_eqb; cbn.
  rewrite andb_true_iff, !Z.eqb_eq. split.
  - now intros [-> ->].
  - intros E; injection E; auto.
Qed.

Lemma ratio_eqb_refl (r : ratio) : ratio_eqb r r = true.
Proof. now apply ratio_eqb_eq. Qed.

Lemma gcd_pos_of_den (n d : Z) : d <> 0 -> 0 < Z.gcd n d.
Proof.
  intros Hd. pose proof (Z.gcd_nonneg n d) as Hn.
  assert (Z.gcd n d <> 0) by (intros E; apply Z.gcd_eq_0_r in E; contradiction).
  lia.
Qed.

Lemma quot_exact (a g k : Z) : g <> 0 -> a = k * g -> a ÷ g = k.
Proof. intros Hg ->. now apply Z.quot_mul. Qed.

(** Both divisions in [num] and [den] are exact. *)
Lemma num_mul_gcd (n d : Z) :
  d <> 0 -> num (Ratio n d) * Z.gcd n d = Z.sgn d * n.
Proof.
  intros Hd. unfold num; cbn [N D].
  pose proof (gcd_pos_of_den n d Hd) as Hg.
  destruct (Z.gcd_divide_l n d) as [k Hk].
  rewrite (quot_exact _ _ (Z.sgn d * k)); [| lia |].
  - rewrite Hk at 2. ring.
  - transitivity (Z.sgn d * (Z.abs n * Z.sgn n)); [ring|].
    rewrite Z.abs_sgn. rewrite Hk at 1. ring.
Qed.

Lemma den_mul_gcd (n d : Z) :
  d <> 0 -> den (Ratio n d) * Z.gcd n d = Z.abs d.
Proof.
  intros Hd. unfold den; cbn [N D].
  pose proof (gcd_pos_of_den n d Hd) as Hg.
  destruct (Z.gcd_divide_r n d) as [k Hk].
  assert (Ha : Z.abs d = Z.abs k * Z.gcd n d).
  { rewrite Hk at 1. rewrite Z.abs_mul, (Z.abs_eq (Z.gcd n d)) by lia. ring. }
  rewrite (quot_exact _ _ (Z.abs k)); [| lia | exact Ha].
  symmetry; exact Ha.
Qed.

Lemma den_pos (n d : Z) : d <> 0 -> 0 < den (Ratio n d).
Proof.
  intros Hd. pose proof (den_mul_gcd n d Hd) as H.
  pose proof (gcd_pos_of_den n d Hd) as Hg.
  assert (0 < Z.abs d) by lia. nia.
Qed.

(** Reduction keeps the value: [num / den = N / D] by cross-multiplication. *)
Lemma num_den_cross (n d : Z) :
  d <> 0 -> num (Ratio n d) * d = n * den (Ratio n d).
Proof.
  intros Hd.
  pose proof (num_mul_gcd n d Hd) as Hn.
  pose proof (den_mul_gcd n d Hd) as Hdn.
  pose proof (gcd_pos_of_den n d Hd) as Hg.
  apply (Z.mul_cancel_r _ _ (Z.gcd n d)); [lia|].
  transitivity (num (Ratio n d) * Z.gcd n d * d); [ring|].
  transitivity (n * (den (Ratio n d) * Z.gcd n d)); [|ring].
  rewrite Hn, Hdn, <- (Z.sgn_abs d). ring.
Qed.

Lemma num_zero_iff (n d : Z) : d <> 0 -> (num (Ratio n d) = 0 <-> n = 0).
Proof.
  intros Hd. pose proof (num_den_cross n d Hd) as Hc.
  pose proof (den_pos n d Hd). split; intros E.
  - rewrite E in Hc. cbn in Hc. symmetry in Hc.
    apply Z.mul_eq_0 in Hc. lia.
  - assert (Hz : num (Ratio n d) * d = 0) by (rewrite Hc, E; ring).
    apply Z.mul_eq_0 in Hz. lia.
Qed.

(** *** The value of a ratio, as a rational and as a real *)

Lemma inject_Z_nonzero (d : Z) : d <> 0 -> ~ (inject_Z d == 0)%Q.
Proof. intros Hd E. apply Hd. unfold Qeq in E; cbn in E. lia. Qed.

Lemma Qfrac_cross (a b c d : Z) :
  b <> 0 -> d <> 0 -> a * d = c * b ->
  (inject_Z a / inject_Z b == inject_Z c / inject_Z d)%Q.
Proof.
  intros Hb Hd E.
  assert (E' : (inject_Z a * inject_Z d == inject_Z c * inject_Z b)%Q)
    by (rewrite <- !inject_Z_mult, E; reflexivity).
  apply inject_Z_nonzero in Hb, Hd.
  field_simplify_eq; [rewrite E'; ring | split; assumption].
Qed.

Lemma Rfrac_cross (a b c d : Z) :
  b <> 0 -> d <> 0 -> a * d = c * b ->
  (IZR a / IZR b = IZR c / IZR d)%R.
Proof.
  intros Hb Hd E.
  assert (E' : (IZR a * IZR d = IZR c * IZR b)%R)
    by (rewrite <- !mult_IZR, E; reflexivity).
  apply not_0_IZR in Hb, Hd.
  field_simplify_eq; [rewrite E'; ring | split; assumption].
Qed.

Lemma den_nonzero (r : ratio) : wf r -> den r <> 0.
Proof.
  destruct r as [n d]; unfold wf; cbn [D]; intros Hd.
  pose proof (den_pos n d Hd). lia.
Qed.

Lemma wf_reduced (n d : Z) : d <> 0 -> wf (reduced n d).
Proof.
  intros Hd. unfold wf, reduced; cbn [D].
  pose proof (den_pos n d Hd). lia.
Qed.

Lemma to_Q_Ratio (n d : Z) :
  d <> 0 -> (to_Q (Ratio n d) == inject_Z n / inject_Z d)%Q.
Proof.
  intros Hd. unfold to_Q.
  apply Qfrac_cross; [apply den_nonzero; exact Hd | exact Hd |].
  now apply num_den_cross.
Qed.

Lemma to_R_Ratio (n d : Z) :
  d <> 0 -> to_R (Ratio n d) = (IZR n / IZR d)%R.
Proof.
  intros Hd. unfold to_R.
  apply Rfrac_cross; [apply den_nonzero; exact Hd | exact Hd |].
  now apply num_den_cross.
Qed.

Lemma to_Q_reduced (n d : Z) :
  d <> 0 -> (to_Q (reduced n d) == inject_Z n / inject_Z d)%Q.
Proof.
  intros Hd. unfold reduced.
  rewrite to_Q_Ratio by (apply (den_nonzero (Ratio n d)); exact Hd).
  now apply to_Q_Ratio.
Qed.

Lemma to_R_reduced (n d : Z) :
  d <> 0 -> to_R (reduced n d) = (IZR n / IZR d)%R.
Proof.
  intros Hd. unfold reduced.
  rewrite to_R_Ratio by (apply (den_nonzero (Ratio n d)); exact Hd).
  now apply to_R_Ratio.
Qed.

Lemma Q2R_inject_Z (z : Z) : Q2R (inject_Z z) = IZR z.
Proof. unfold Q2R; cbn. field. Qed.

Lemma Q2R_to_Q (r : ratio) : wf r -> Q2R (to_Q r) = to_R r.
Proof.
  intros Hr. unfold to_Q, to_R.
  rewrite Q2R_div by (apply inject_Z_nonzero, den_nonzero, Hr).
  now rewrite !Q2R_inject_Z.
Qed.

(** *** The operations compute the rational operations *)

Lemma to_Q_ratio_multiply (r1 r2 : ratio) :
  wf r1 -> wf r2 -> (to_Q (ratio_multiply r1 r2) == to_Q r1 * to_Q r2)%Q.
Proof.
  intros H1 H2. apply den_nonzero in H1, H2. unfold ratio_multiply.
  rewrite to_Q_reduced by lia. unfold to_Q.
  rewrite !inject_Z_mult.
  apply inject_Z_nonzero in H1, H2. field. split; assumption.
Qed.

Lemma to_Q_ratio_add (r1 r2 : ratio) :
  wf r1 -> wf r2 -> (to_Q (ratio_add r1 r2) == to_Q r1 + to_Q r2)%Q.
Proof.
  intros H1 H2. apply den_nonzero in H1, H2. unfold ratio_add.
  rewrite to_Q_reduced by lia. unfold to_Q.
  rewrite inject_Z_plus, !inject_Z_mult.
  apply inject_Z_nonzero in H1, H2. field. split; assumption.
Qed.

Lemma to_Q_ratio_subtract (r1 r2 : ratio) :
  wf r1 -> wf r2 -> (to_Q (ratio_subtract r1 r2) == to_Q r1 - to_Q r2)%Q.
Proof.
  intros H1 H2. apply den_nonzero in H1, H2. unfold ratio_subtract.
  rewrite to_Q_reduced by lia. unfold to_Q, Z.sub.
  rewrite inject_Z_plus, inject_Z_opp, !inject_Z_mult.
  apply inject_Z_nonzero in H1, H2. field. split; assumption.
Qed.

Lemma wf_ratio_multiply (r1 r2 : ratio) :
  wf r1 -> wf r2 -> wf (ratio_multiply r1 r2).
Proof.
  intros H1 H2. apply den_nonzero in H1, H2. apply wf_reduced. lia.
Qed.

Lemma wf_ratio_add (r1 r2 : ratio) :
  wf r1 -> wf r2 -> wf (ratio_add r1 r2).
Proof.
  intros H1 H2. apply den_nonzero in H1, H2. apply wf_reduced. lia.
Qed.

Lemma wf_ratio_subtract (r1 r2 : ratio) :
  wf r1 -> wf r2 -> wf (ratio_subtract r1 r2).
Proof.
  intros H1 H2. apply den_nonzero in H1, H2. apply wf_reduced. lia.
Qed.

Lemma to_Q_zero_iff (r : ratio) : wf r -> ((to_Q r == 0)%Q <-> num r = 0).
Proof.
  intros Hr. pose proof (den_nonzero r Hr) as Hd. unfold to_Q. split.
  - intros E.
    assert (E' : (inject_Z (num r) == 0 * inject_Z (den r))%Q).
    { rewrite <- E. field. now apply inject_Z_nonzero. }
    unfold Qeq in E'; cbn in E'. lia.
  - intros ->. unfold Qdiv. now rewrite Qmult_0_l.
Qed.

(** [ratio_divide] succeeds exactly on a non-zero divisor, and computes the
    quotient. *)
Lemma ratio_divide_some (r1 r2 : ratio) :
  wf r1 -> wf r2 -> num r2 <> 0 ->
  exists q, ratio_divide r1 r2 = Some q /\ wf q /\
            to_R q = (to_R r1 / to_R r2)%R.
Proof.
  intros H1 H2 Hn. apply den_nonzero in H1, H2.
  unfold ratio_divide. apply Z.eqb_neq in Hn as Hb. rewrite Hb.
  eexists; split; [reflexivity|]. split; [apply wf_reduced; nia|].
  rewrite to_R_reduced by nia. unfold to_R.
  rewrite !mult_IZR.
  apply not_0_IZR in H1, H2, Hn. field. repeat split; assumption.
Qed.

End RatioFacts.

(* ------------------------------------------------------------------ *)
(** ** Facts on base_unit and unit *)
(* ------------------------------------------------------------------ *)

Section UnitFacts.

Example fahrenheit_descriptor :
  conversion_ratio temperature.fahrenheit = Ratio 5 9
  /\ pi_exponent_ratio temperature.fahrenheit = Ratio 0 1
  /\ translation_ratio temperature.fahrenheit = Ratio 45967 180.
Proof. repeat split; by_eval. Qed.

Lemma base_unit_eqb_eq (b1 b2 : base_unit) :
  base_unit_eqb b1 b2 = true <-> b1 = b2.
Proof.
  destruct b1, b2; unfold base_unit_eqb; cbn.
  rewrite !andb_true_iff, !ratio_eqb_eq. split.
  - intros (-> & -> & -> & -> & -> & -> & -> & -> & _). reflexivity.
  - intros E; injection E; intros; subst. repeat split.
Qed.

Lemma base_unit_eqb_refl (b : base_unit) : base_unit_eqb b b = true.
Proof. now apply base_unit_eqb_eq. Qed.

Lemma unit_eqb_eq (U1 U2 : unit) : unit_eqb U1 U2 = true <-> U1 = U2.
Proof.
  revert U2; induction U1 as [c1 b1 p1 t1 | c1 u1 IH p1 t1];
    intros [c2 b2 p2 t2 | c2 u2 p2 t2]; cbn [unit_eqb];
    try (split; discriminate).
  - rewrite !andb_true_iff, !ratio_eqb_eq, base_unit_eqb_eq. split.
    + intros [[[-> ->] ->] ->]; reflexivity.
    + intros E; injection E; intros; subst; repeat split.
  - rewrite !andb_true_iff, !ratio_eqb_eq, IH. split.
    + intros [[[-> ->] ->] ->]; reflexivity.
    + intros E; injection E; intros; subst; repeat split.
Qed.

Lemma unit_eqb_refl (U : unit) : unit_eqb U U = true.
Proof. now apply unit_eqb_eq. Qed.

Lemma unit_eqb_neq (U1 U2 : unit) : U1 <> U2 -> unit_eqb U1 U2 = false.
Proof.
  intros Hne. destruct (unit_eqb U1 U2) eqn:E; [|reflexivity].
  apply unit_eqb_eq in E. contradiction.
Qed.

Lemma base_unit_of_type (U : unit) : base_unit_of U = base_unit_type U.
Proof. induction U; cbn; auto. Qed.

Lemma is_convertible_unit_refl (U : unit) : is_convertible_unit U U = true.
Proof. apply base_unit_eqb_refl. Qed.

Lemma is_convertible_unit_iff (U1 U2 : unit) :
  is_convertible_unit U1 U2 = true <-> base_unit_type U1 = base_unit_type U2.
Proof. apply base_unit_eqb_eq. Qed.

(** The descriptor of a well-formed unit is made of well-formed ratios. *)
Lemma wf_unit_descriptor (U : unit) :
  wf_unit U ->
  wf (conversion_ratio U) /\ wf (pi_exponent_ratio U)
  /\ wf (translation_ratio U) /\ wf_base_unit (base_unit_type U).
Proof.
  induction U as [c b p t | c u IH p t]; cbn.
  - intros (Hc & Hb & Hp & Ht); auto.
  - intros (Hc & Hu & Hp & Ht). destruct (IH Hu) as (Hcu & Hpu & Htu & Hbu).
    repeat split; auto using wf_ratio_multiply, wf_ratio_add.
Qed.

End UnitFacts.

(* ------------------------------------------------------------------ *)
(** ** Facts on the conversion function *)
(* ------------------------------------------------------------------ *)

Section ConvertFacts.

(** The dispatch of [convert], with the three tags named. *)
Lemma convert_dispatch (From To : unit) (x : R) (same pi tr : bool) :
  is_convertible_unit From To = true ->
  unit_eqb From To = same ->
  negb (ratio_eqb (ratio1 0) (pi_exponent_ratio From)
        && ratio_eqb (ratio1 0) (pi_exponent_ratio To)) = pi ->
  negb (ratio_eqb (ratio1 0) (translation_ratio From)
        && ratio_eqb (ratio1 0) (translation_ratio To)) = tr ->
  convert From To x = _convert From To x same pi tr.
Proof.
  intros Hc Hs Hp Ht. unfold convert. rewrite Hc; cbn [negb].
  now rewrite Hs, Hp, Ht.
Qed.

Lemma convert_same (U : unit) (x : R) : convert U U x = Some x.
Proof.
  unfold convert. rewrite is_convertible_unit_refl, unit_eqb_refl; cbn [negb].
  unfold _convert. now destruct (negb _), (negb _).
Qed.

Lemma convert_not_convertible (From To : unit) (x : R) :
  is_convertible_unit From To = false -> convert From To x = None.
Proof. intros H. unfold convert. now rewrite H. Qed.

End ConvertFacts.

Section ConvertBranches.

Variables (From To : unit) (x : R).
Hypothesis Hconv : is_convertible_unit From To = true.
Hypothesis Hdiff : unit_eqb From To = false.

(** The overload without pi and without translation. *)
Lemma convert_ratio_branch (q : ratio) :
  pi_exponent_ratio From = ratio1 0 -> pi_exponent_ratio To = ratio1 0 ->
  translation_ratio From = ratio1 0 -> translation_ratio To = ratio1 0 ->
  ratio_divide (conversion_ratio From) (conversion_ratio To) = Some q ->
  convert From To x = Some (IZR (num q) * x / IZR (den q))%R.
Proof.
  intros Hp1 Hp2 Ht1 Ht2 Hq.
  rewrite (convert_dispatch From To x false false false); auto.
  - unfold _convert. now rewrite Hq.
  - now rewrite Hp1, Hp2.
  - now rewrite Ht1, Ht2.
Qed.

(** The overload with a translation and without pi. *)
Lemma convert_translation_branch (q t : ratio) :
  pi_exponent_ratio From = ratio1 0 -> pi_exponent_ratio To = ratio1 0 ->
  negb (ratio_eqb (ratio1 0) (translation_ratio From)
        && ratio_eqb (ratio1 0) (translation_ratio To)) = true ->
  ratio_divide (conversion_ratio From) (conversion_ratio To) = Some q ->
  ratio_divide (ratio_subtract (translation_ratio From)
                               (translation_ratio To))
               (conversion_ratio To) = Some t ->
  convert From To x
  = Some (IZR (num q) * x / IZR (den q) + IZR (num t) / IZR (den t))%R.
Proof.
  intros Hp1 Hp2 Ht Hq Htr.
  rewrite (convert_dispatch From To x false false true); auto.
  - unfold _convert. now rewrite Hq, Htr.
  - now rewrite Hp1, Hp2.
Qed.

End ConvertBranches.

(* ------------------------------------------------------------------ *)
(** ** The conversion properties *)
(* ------------------------------------------------------------------ *)

(** C4: for every unit [U] and every value [x], [convert<U, U>(x)] returns
    [x] itself: the dispatch tag [isSame] is true, and each of the four
    overloads of [_convert] for that tag returns [value] with no arithmetic
    on it, whatever the other two tags are. *)
Theorem C4_convert_identity (U : unit) (x : R) :
  convert U U x = Some x
  /\ unit_eqb U U = true
  /\ forall piRequired translationRequired : bool,
       _convert U U x true piRequired translationRequired = Some x.
Proof.
  split; [apply convert_same|]. split; [apply unit_eqb_refl|].
  now intros [|] [|].
Qed.

(** C2: converting Celsius to Fahrenheit maps 0 to exactly 32 and 100 to
    exactly 212.  Celsius is Kelvin with the offset 27315/100, Fahrenheit is
    Celsius with the ratio 5/9 and the offset -160/9; the conversion takes
    the overload with a translation and without pi. *)
Theorem C2_celsius_to_fahrenheit :
  convert temperature.celsius temperature.fahrenheit 0 = Some 32%R
  /\ convert temperature.celsius temperature.fahrenheit 100 = Some 212%R.
Proof.
  assert (H : forall x : R,
             convert temperature.celsius temperature.fahrenheit x
             = Some (9 * x / 5 + 32 / 1)%R).
  { intros x.
    rewrite (convert_translation_branch
               temperature.celsius temperature.fahrenheit x)
      with (q := Ratio 9 5) (t := Ratio 32 1); [| by_eval ..].
    change (num (Ratio 9 5)) with 9. change (den (Ratio 9 5)) with 5.
    change (num (Ratio 32 1)) with 32. change (den (Ratio 32 1)) with 1.
    reflexivity. }
  rewrite !H. split; f_equal; lra.
Qed.

Lemma num_reduced_zero (d : Z) : d <> 0 -> num (reduced 0 d) = 0.
Proof.
  intros Hd. unfold reduced.
  apply num_zero_iff; [apply (den_nonzero (Ratio 0 d)); exact Hd|].
  now apply num_zero_iff.
Qed.

(** Equal rationals have a difference whose numerator is zero. *)
Lemma num_ratio_subtract_eq (r1 r2 : ratio) :
  wf r1 -> wf r2 -> (to_Q r1 == to_Q r2)%Q -> num (ratio_subtract r1 r2) = 0.
Proof.
  intros H1 H2 E.
  apply to_Q_zero_iff; [now apply wf_ratio_subtract|].
  rewrite to_Q_ratio_subtract, E by assumption. ring.
Qed.

Lemma Rdiv_IZR_0 (y : R) : (IZR 0 / y = 0)%R.
Proof. unfold Rdiv. apply Rmult_0_l. Qed.

Lemma std_pow_PI_0 (y : R) : std_pow constants.PI (IZR 0 / y) = 1%R.
Proof. rewrite Rdiv_IZR_0. apply Rpower_O, PI_RGT_0. Qed.



(** Years to weeks: the conversion ratio is computed at compile time to
    365/7, and the value is multiplied and divided once. *)
Lemma convert_years_weeks (x : R) :
  convert time.years time.weeks x = Some (365 * x / 7)%R.
Proof.
  rewrite (convert_ratio_branch time.years time.weeks x)
    with (q := Ratio 365 7); [| by_eval ..].
  change (num (Ratio 365 7)) with 365. change (den (Ratio 365 7)) with 7.
  reflexivity.
Qed.

(** C3, as stated, fails: with a year of 365 days, 2 years are 730/7 weeks,
    which is farther than 5e-7 from every number that starts with the
    digits 104.357142857. *)
Lemma C3_years_to_weeks_counterexample :
  exists v : R,
    convert time.years time.weeks 2 = Some v
    /\ forall t : R,
         (104357142857 / 1000000000 <= t <= 104357142858 / 1000000000)%R ->
         ~ (Rabs (v - t) <= 5 / 10000000)%R.
Proof.
  exists (365 * 2 / 7)%R. split; [apply convert_years_weeks|].
  intros t [Hlo Hhi] Habs.
  unfold Rabs in Habs. destruct (Rcase_abs _); lra.
Qed.

(** C3, amended: [convert<years, weeks>(2)], where a year is 365 days, a
    day 24 hours, an hour 60 minutes, a minute 60 seconds and a week 7 days,
    returns 730/7 = 104.285714285... weeks, within 5e-7 of 104.285714286. *)
Theorem C3_years_to_weeks :
  convert time.years time.weeks 2 = Some (730 / 7)%R
  /\ (Rabs (730 / 7 - 104285714286 / 1000000000) <= 5 / 10000000)%R
  /\ conversion_ratio time.years = Ratio (365 * 24 * 60 * 60) 1
  /\ conversion_ratio time.weeks = Ratio (7 * 24 * 60 * 60) 1.
Proof.
  split; [|split; [|split; by_eval]].
  - rewrite convert_years_weeks. f_equal. lra.
  - unfold Rabs. destruct (Rcase_abs _); lra.
Qed.

(* ------------------------------------------------------------------ *)
(** ** The unit algebra *)
(* ------------------------------------------------------------------ *)



(** The same composition for a unit defined directly over a [base_unit]:
    the three parameters are the descriptor. *)
Lemma unit_of_base_descriptor (b : base_unit) (c piExp translation : ratio) :
  let U := unit_of_base c b piExp translation in
  base_unit_type U = b /\ conversion_ratio U = c
  /\ pi_exponent_ratio U = piExp /\ translation_ratio U = translation.
Proof. cbn. auto. Qed.

Lemma dimension_expand2 (f : ratio -> ratio -> ratio) (g : Q -> Q -> Q)
    (b1 b2 : base_unit) :
  (forall e1 e2, wf e1 -> wf e2 -> (to_Q (f e1 e2) == g (to_Q e1) (to_Q e2))%Q) ->
  wf_base_unit b1 -> wf_base_unit b2 ->
  Forall2 Qeq (map to_Q (Exponents (expand2 f b1 b2)))
          (map (fun p => g (fst p) (snd p))
               (combine (map to_Q (Exponents b1)) (map to_Q (Exponents b2)))).
Proof.
  intros Hf H1 H2. destruct b1, b2.
  unfold wf_base_unit, Exponents, expand2 in *; cbn in *.
  repeat match goal with
         | H : Forall _ (_ :: _) |- _ => inversion H; clear H; subst
         end.
  repeat (apply Forall2_cons; [apply Hf; assumption|]).
  apply Forall2_nil.
Qed.



(* ------------------------------------------------------------------ *)
(** ** Scales and default construction *)
(* ------------------------------------------------------------------ *)

Lemma std_pow_10_0 : std_pow 10 (0 / 10) = 1%R.
Proof.
  replace (0 / 10)%R with 0%R by lra. apply Rpower_O. lra.
Qed.

Lemma std_pow_10_pos (y : R) : (0 < std_pow 10 y)%R.
Proof. unfold std_pow, Rpower. apply exp_pos. Qed.

Lemma std_log10_1 : std_log10 1 = 0%R.
Proof. unfold std_log10, Rlog. rewrite ln_1. unfold Rdiv. apply Rmult_0_l. Qed.

(** C10: a default-constructed decibel-scale quantity stores the linear
    magnitude 1 and reads back as 0 dB; a default-constructed linear-scale
    quantity stores 0.  [unit_t()] passes 0 to the value constructor of the
    scale; the default constructors of the two scales store the same
    values. *)
Theorem C10_default_construction (Units : unit) :
  m_value (unit_t_default Units decibel_scale) = 1%R
  /\ call (unit_t_default Units decibel_scale) = 0%R
  /\ m_value (unit_t_default Units linear_scale) = 0%R
  /\ call (unit_t_default Units linear_scale) = 0%R
  /\ scale_default decibel_scale = 1%R
  /\ scale_call decibel_scale (scale_default decibel_scale) = 0%R
  /\ scale_default linear_scale = 0%R.
Proof.
  unfold call, unit_t_default; cbn.
  rewrite std_pow_10_0, std_log10_1. repeat split; lra.
Qed.

(* ------------------------------------------------------------------ *)
(** ** Conversion is defined on well-formed convertible units *)
(* ------------------------------------------------------------------ *)

Lemma convert_defined (From To : unit) (x : R) :
  wf_unit From -> wf_unit To ->
  is_convertible_unit From To = true ->
  num (conversion_ratio To) <> 0 ->
  exists r, convert From To x = Some r.
Proof.
  intros HwF HwT Hc HnT.
  destruct (wf_unit_descriptor From HwF) as (HcF & _ & HtF & _).
  destruct (wf_unit_descriptor To HwT) as (HcT & _ & HtT & _).
  destruct (ratio_divide_some _ _ HcF HcT HnT) as (q & Hq & _).
  destruct (ratio_divide_some _ _ (wf_ratio_subtract _ _ HtF HtT) HcT HnT)
    as (t & Ht & _).
  unfold convert. rewrite Hc; cbn [negb]. unfold _convert.
  destruct (unit_eqb From To), (negb _), (negb _);
    rewrite ?Hq, ?Ht; eexists; reflexivity.
Qed.

(* ------------------------------------------------------------------ *)
(** ** Multiplication of linear quantities *)
(* ------------------------------------------------------------------ *)

Lemma has_linear_scale_2 (lhs rhs : unit_t) :
  non_linear_scale_type lhs = linear_scale ->
  non_linear_scale_type rhs = linear_scale ->
  has_linear_scale [lhs; rhs] = true.
Proof. intros H1 H2. unfold has_linear_scale; cbn. now rewrite H1, H2. Qed.

Lemma op_mul_convertible (lhs rhs : unit_t) (r : R) :
  has_linear_scale [lhs; rhs] = true ->
  is_convertible_unit_t lhs rhs = true ->
  convert (unit_type rhs) (unit_type lhs) (m_value rhs) = Some r ->
  op_mul lhs rhs
  = Some (mk_unit_t (squared (unit_type lhs)) linear_scale (m_value lhs * r)).
Proof. intros Hl Hc Hr. unfold op_mul. now rewrite Hl, Hc, Hr. Qed.

Lemma op_mul_not_convertible (lhs rhs : unit_t) :
  has_linear_scale [lhs; rhs] = true ->
  is_convertible_unit_t lhs rhs = false ->
  op_mul lhs rhs
  = Some (mk_unit_t (unit_multiply (unit_type lhs) (unit_type rhs))
                    linear_scale (m_value lhs * m_value rhs)).
Proof. intros Hl Hc. unfold op_mul. now rewrite Hl, Hc. Qed.

Lemma convert_feet_meters (x : R) :
  convert length.feet length.meters x = Some (381 * x / 1250)%R.
Proof.
  rewrite (convert_ratio_branch length.feet length.meters x)
    with (q := Ratio 381 1250); [| by_eval ..].
  change (num (Ratio 381 1250)) with 381.
  change (den (Ratio 381 1250)) with 1250.
  reflexivity.
Qed.


Lemma to_Q_ratio1 (n : Z) : (to_Q (ratio1 n) == inject_Z n)%Q.
Proof.
  unfold ratio1. rewrite to_Q_Ratio by lia. unfold Qdiv.
  change (/ inject_Z 1)%Q with 1%Q. ring.
Qed.

Lemma dimension_squared (b : base_unit) :
  wf_base_unit b ->
  dim_eq (map to_Q (Exponents (squared_base b)))
         (dim_add (map to_Q (Exponents b)) (map to_Q (Exponents b))).
Proof.
  intros Hb. destruct b.
  unfold wf_base_unit, Exponents, squared_base, expand1, dim_eq, dim_add
    in *; cbn in *.
  repeat match goal with
         | H : Forall _ (_ :: _) |- _ => inversion H; clear H; subst
         end.
  assert (Hdbl : forall e, wf e ->
                 (to_Q (ratio_multiply e (ratio1 2)) == to_Q e + to_Q e)%Q).
  { intros e He. rewrite to_Q_ratio_multiply by (auto; unfold wf; cbn; lia).
    rewrite to_Q_ratio1. change (inject_Z 2) with 2%Q. ring. }
  repeat (apply Forall2_cons; [apply Hdbl; assumption|]).
  apply Forall2_nil.
Qed.



(** Meter times foot: the same dimension, so the foot is converted. *)
Example op_mul_meter_foot :
  op_mul (length.meter_t 1) (length.foot_t 1)
  = Some (mk_unit_t (squared length.meters) linear_scale (1 * (381 * 1 / 1250))).
Proof.
  apply op_mul_convertible; [reflexivity | reflexivity |].
  apply convert_feet_meters.
Qed.

(* ------------------------------------------------------------------ *)
(** ** The comparison operators *)
(* ------------------------------------------------------------------ *)

(** Five of the six comparison operators compare [lhs.m_value] with the
    right value converted to the left unit. *)
Lemma comparison_operators (lhs rhs : unit_t) (r : R) :
  convert (unit_type rhs) (unit_type lhs) (m_value rhs) = Some r ->
  op_le lhs rhs = Some (Rleb (m_value lhs) r)
  /\ op_gt lhs rhs = Some (Rgtb (m_value lhs) r)
  /\ op_ge lhs rhs = Some (Rgeb (m_value lhs) r)
  /\ op_eq lhs rhs = Some (Reqb (m_value lhs) r)
  /\ op_ne lhs rhs = Some (negb (Reqb (m_value lhs) r)).
Proof.
  intros H. unfold op_le, op_gt, op_ge, op_eq, op_ne. rewrite H. auto.
Qed.

(** [operator<] on a unit that is not scalar does not compile: the
    [unit_t] it builds has no conversion to [bool]. *)
Lemma op_lt_not_scalar (lhs rhs : unit_t) :
  base_unit_type (unit_type lhs) <> category.scalar_unit ->
  op_lt lhs rhs = None.
Proof.
  intros Hns. unfold op_lt. destruct (convert _ _ _); [|reflexivity].
  unfold to_bool, to_arithmetic, unit_t_of; cbn [unit_type].
  rewrite base_unit_of_type.
  destruct (base_unit_eqb _ _) eqn:E; [|reflexivity].
  apply base_unit_eqb_eq in E. contradiction.
Qed.

(** [operator<] on two [dB_t]: the result of the comparison goes through the
    value constructor of the decibel scale, which stores a positive number
    for [false] and for [true]. *)
Lemma op_lt_dB_t (a b : R) :
  op_lt (dimensionless.dB_t a) (dimensionless.dB_t b) = Some true.
Proof.
  unfold op_lt, dimensionless.dB_t, unit_t_of;
    cbn [unit_type non_linear_scale_type m_value].
  rewrite convert_same.
  unfold to_bool, to_arithmetic; cbn [unit_type m_value].
  change (base_unit_eqb (base_unit_of dimensionless.scalar)
                        category.scalar_unit) with true.
  cbv iota.
  change (unit_of_base (ratio1 1) category.scalar_unit (ratio1 0) (ratio1 0))
    with dimensionless.scalar.
  rewrite convert_same. f_equal.
  unfold bool_of_double, Reqb.
  destruct (Req_dec_T _ 0) as [E|_]; [|reflexivity].
  pose proof (std_pow_10_pos
                (double_of_bool (Rltb (std_pow 10 (a / 10))
                                      (std_pow 10 (b / 10))) / 10)) as Hp.
  cbn [scale_value] in E. lra.
Qed.

Lemma bool_of_double_of_bool (b : bool) :
  bool_of_double (double_of_bool b) = b.
Proof.
  unfold bool_of_double, Reqb.
  destruct b; cbn; destruct (Req_dec_T _ _); try reflexivity; lra.
Qed.

(** On linear scalar quantities the detour through [unit_t] and back is the
    identity, and [operator<] is the comparison of the stored values. *)
Lemma op_lt_scalar_t (a b : R) :
  op_lt (dimensionless.scalar_t a) (dimensionless.scalar_t b)
  = Some (Rltb a b).
Proof.
  unfold op_lt, dimensionless.scalar_t, unit_t_of;
    cbn [unit_type non_linear_scale_type m_value scale_value].
  rewrite convert_same.
  unfold to_bool, to_arithmetic; cbn [unit_type m_value].
  change (base_unit_eqb (base_unit_of dimensionless.scalar)
                        category.scalar_unit) with true.
  cbv iota.
  change (unit_of_base (ratio1 1) category.scalar_unit (ratio1 0) (ratio1 0))
    with dimensionless.scalar.
  rewrite convert_same. now rewrite bool_of_double_of_bool.
Qed.

(** C8, the failing input: [dB_t(2) < dB_t(1)].  The right operand converts
    to itself, the stored value of the left operand is not less than it,
    [operator<=] and [operator>] answer accordingly, but [operator<]
    returns [true].  On units that are not scalar, such as two lengths in
    meters, [operator<] does not compile at all. *)
Theorem C8_op_lt_failing_input :
  let lhs := dimensionless.dB_t 2 in
  let rhs := dimensionless.dB_t 1 in
  convert (unit_type rhs) (unit_type lhs) (m_value rhs) = Some (m_value rhs)
  /\ Rltb (m_value lhs) (m_value rhs) = false
  /\ op_le lhs rhs = Some false
  /\ op_gt lhs rhs = Some true
  /\ op_lt lhs rhs = Some true
  /\ op_lt (length.meter_t 1) (length.meter_t 2) = None.
Proof.
  cbn zeta.
  assert (Hlt : (std_pow 10 (1 / 10) < std_pow 10 (2 / 10))%R)
    by (apply Rpower_lt; lra).
  assert (Hc : convert (unit_type (dimensionless.dB_t 1))
                       (unit_type (dimensionless.dB_t 2))
                       (m_value (dimensionless.dB_t 1))
               = Some (m_value (dimensionless.dB_t 1)))
    by apply convert_same.
  destruct (comparison_operators _ _ _ Hc) as (Hle & Hgt & _).
  split; [exact Hc|].
  split; [|split; [|split; [|split]]].
  - unfold Rltb. cbn. destruct (Rlt_dec _ _); [lra | reflexivity].
  - rewrite Hle. unfold Rleb. cbn. destruct (Rle_dec _ _); [lra | reflexivity].
  - rewrite Hgt. unfold Rgtb. cbn. destruct (Rgt_dec _ _); [reflexivity | lra].
  - apply op_lt_dB_t.
  - apply op_lt_not_scalar. vm_compute; discriminate.
Qed.

(* ------------------------------------------------------------------ *)
(** ** Decibel arithmetic *)
(* ------------------------------------------------------------------ *)

Lemma is_dB_t_scalar (q : unit_t) :
  is_dB_t q = true -> base_unit_type (unit_type q) = category.scalar_unit.
Proof.
  unfold is_dB_t. rewrite andb_true_iff. intros [E _].
  apply unit_eqb_eq in E. now rewrite E.
Qed.

(** On two decibel quantities of the same dimension the overloads with a
    [dB_t] parameter are disabled, and the generic decibel overload is
    selected. *)
Lemma op_add_decibel_same_dimension (lhs rhs : unit_t) :
  non_linear_scale_type lhs = decibel_scale ->
  non_linear_scale_type rhs = decibel_scale ->
  base_unit_type (unit_type lhs) = base_unit_type (unit_type rhs) ->
  op_add lhs rhs
  = (r <- convert (unit_type rhs) (unit_type lhs) (m_value rhs) ;;
     Some (mk_unit_t (squared (unit_type lhs)) decibel_scale
                     (m_value lhs * r))).
Proof.
  intros Hl Hr Hdim.
  assert (H1 : negb (is_scalar_unit lhs) && is_dB_t rhs = false).
  { destruct (is_dB_t rhs) eqn:E; [|apply andb_false_r].
    apply is_dB_t_scalar in E. unfold is_scalar_unit.
    now rewrite base_unit_of_type, Hdim, E, base_unit_eqb_refl. }
  assert (H2 : negb (is_scalar_unit rhs) && is_dB_t lhs = false).
  { destruct (is_dB_t lhs) eqn:E; [|apply andb_false_r].
    apply is_dB_t_scalar in E. unfold is_scalar_unit.
    now rewrite base_unit_of_type, <- Hdim, E, base_unit_eqb_refl. }
  unfold op_add, is_same_scale, has_linear_scale, has_decibel_scale;
    cbn [forallb].
  rewrite Hl, Hr; cbn [scale_eqb negb andb].
  now rewrite H1, H2.
Qed.

(** 10^0.1 * 10^0.1 is 10^0.2, not 2: its fifth power is 10, not 32. *)
Lemma std_pow_10_tenth_squared :
  (std_pow 10 (1 / 10) * std_pow 10 (1 / 10) <> 1 + 1)%R.
Proof.
  unfold std_pow. rewrite <- Rpower_plus. intros E.
  assert (H : Rpower (Rpower 10 (1 / 10 + 1 / 10)) (INR 5)
              = Rpower (1 + 1) (INR 5)) by now rewrite E.
  rewrite Rpower_mult in H.
  rewrite (Rpower_pow 5 (1 + 1)) in H by lra.
  replace ((1 / 10 + 1 / 10) * INR 5)%R with 1%R in H by (simpl; lra).
  rewrite Rpower_1 in H by lra. simpl in H. lra.
Qed.



(** A decibel quantity that is not scalar plus a [dB_t]: the overload with
    the [dB_t] parameter is selected, and the result keeps the left unit. *)
Example op_add_dBW_dB (a b : R) :
  op_add (power.dBW_t a) (dimensionless.dB_t b)
  = Some (mk_unit_t power.watts decibel_scale
                    (std_pow 10 (a / 10) * std_pow 10 (b / 10))).
Proof. reflexivity. Qed.

(** Quantities of different scales cannot be added. *)
Example op_add_mixed_scales (a b : R) :
  op_add (dimensionless.scalar_t a) (dimensionless.dB_t b) = None.
Proof. reflexivity. Qed.

(* ------------------------------------------------------------------ *)
(** ** Ratios in lowest terms *)
(* ------------------------------------------------------------------ *)

Section Canonical.

Lemma gcd_num_den (n d : Z) :
  d <> 0 -> Z.gcd (num (Ratio n d)) (den (Ratio n d)) = 1.
Proof.
  intros Hd.
  pose proof (num_mul_gcd n d Hd) as Hn.
  pose proof (den_mul_gcd n d Hd) as Hm.
  pose proof (gcd_pos_of_den n d Hd) as Hg.
  assert (E : Z.gcd (num (Ratio n d)) (den (Ratio n d)) * Z.gcd n d
              = Z.gcd n d).
  { rewrite <- Z.gcd_mul_mono_r_nonneg by lia. rewrite Hn, Hm.
    rewrite Z.gcd_abs_r, <- Z.gcd_abs_l.
    assert (Hs : Z.abs (Z.sgn d) = 1) by (destruct d; [contradiction | | ]; reflexivity).
    rewrite Z.abs_mul, Hs, Z.mul_1_l. apply Z.gcd_abs_l. }
  nia.
Qed.

Lemma canonical_reduced (n d : Z) : d <> 0 -> canonical (reduced n d).
Proof.
  intros Hd. unfold canonical, reduced; cbn [N D]. split.
  - now apply den_pos.
  - now apply gcd_num_den.
Qed.

(** On a ratio in lowest terms, [num] and [den] are the two arguments. *)
Lemma canonical_num_den (r : ratio) :
  canonical r -> num r = N r /\ den r = D r.
Proof.
  destruct r as [n d]; unfold canonical, num, den; cbn [N D].
  intros [Hd Hg]. rewrite Hg, !Z.quot_1_r. split.
  - rewrite (Z.sgn_pos d) by lia. rewrite Z.mul_1_r.
    rewrite Z.mul_comm. apply Z.abs_sgn.
  - apply Z.abs_eq. lia.
Qed.

Lemma canonical_wf (r : ratio) : canonical r -> wf r.
Proof. unfold canonical, wf. lia. Qed.

(** Two ratios in lowest terms with the same value are the same
    instance. *)
Lemma canonical_cross_eq (r1 r2 : ratio) :
  canonical r1 -> canonical r2 -> N r1 * D r2 = N r2 * D r1 -> r1 = r2.
Proof.
  destruct r1 as [a1 b1], r2 as [a2 b2]; unfold canonical; cbn [N D].
  intros [Hb1 Hg1] [Hb2 Hg2] E.
  assert (H12 : (b1 | b2)).
  { apply (Z.gauss b1 a1 b2); [|now rewrite Z.gcd_comm].
    exists a2. rewrite E. ring. }
  assert (H21 : (b2 | b1)).
  { apply (Z.gauss b2 a2 b1); [|now rewrite Z.gcd_comm].
    exists a1. rewrite <- E. ring. }
  assert (Hb : b1 = b2)
    by (apply Z.divide_antisym_nonneg; [lia | lia | assumption | assumption]).
  subst b2. f_equal. apply (Z.mul_cancel_r _ _ b1); [lia | exact E].
Qed.

Lemma to_Q_cross (r1 r2 : ratio) :
  wf r1 -> wf r2 ->
  ((to_Q r1 == to_Q r2)%Q <-> num r1 * den r2 = num r2 * den r1).
Proof.
  intros H1 H2. apply den_nonzero in H1, H2. unfold to_Q. split.
  - intros E.
    assert (E' : (inject_Z (num r1) * inject_Z (den r2)
                  == inject_Z (num r2) * inject_Z (den r1))%Q).
    { apply inject_Z_nonzero in H1, H2.
      transitivity (inject_Z (num r1) / inject_Z (den r1)
                    * (inject_Z (den r1) * inject_Z (den r2)))%Q;
        [field; assumption|].
      rewrite E. field; assumption. }
    rewrite <- !inject_Z_mult in E'. unfold Qeq in E'; cbn in E'. lia.
  - intros E. now apply Qfrac_cross.
Qed.

Lemma canonical_eq (r1 r2 : ratio) :
  canonical r1 -> canonical r2 -> (to_Q r1 == to_Q r2)%Q -> r1 = r2.
Proof.
  intros H1 H2 E. apply canonical_cross_eq; try assumption.
  apply to_Q_cross in E; auto using canonical_wf.
  destruct (canonical_num_den r1 H1) as [<- <-].
  destruct (canonical_num_den r2 H2) as [<- <-]. exact E.
Qed.

Lemma canonical_ratio_add (r1 r2 : ratio) :
  wf r1 -> wf r2 -> canonical (ratio_add r1 r2).
Proof.
  intros H1 H2. apply den_nonzero in H1, H2. apply canonical_reduced. lia.
Qed.

Lemma canonical_ratio_subtract (r1 r2 : ratio) :
  wf r1 -> wf r2 -> canonical (ratio_subtract r1 r2).
Proof.
  intros H1 H2. apply den_nonzero in H1, H2. apply canonical_reduced. lia.
Qed.

Lemma canonical_ratio_multiply (r1 r2 : ratio) :
  wf r1 -> wf r2 -> canonical (ratio_multiply r1 r2).
Proof.
  intros H1 H2. apply den_nonzero in H1, H2. apply canonical_reduced. lia.
Qed.

Lemma canonical_ratio1 (n : Z) : canonical (ratio1 n).
Proof. unfold canonical, ratio1; cbn. split; [lia | apply Z.gcd_1_r]. Qed.

Lemma wf_ratio1 (n : Z) : wf (ratio1 n).
Proof. apply canonical_wf, canonical_ratio1. Qed.

End Canonical.

(* ------------------------------------------------------------------ *)
(** ** The unit algebra, up to identity of types *)
(* ------------------------------------------------------------------ *)

Section AlgebraLaws.

Lemma ratio_add_comm (r1 r2 : ratio) : ratio_add r1 r2 = ratio_add r2 r1.
Proof. unfold ratio_add. f_equal; ring. Qed.

Lemma ratio_multiply_comm (r1 r2 : ratio) :
  ratio_multiply r1 r2 = ratio_multiply r2 r1.
Proof. unfold ratio_multiply. f_equal; ring. Qed.

Lemma ratio_add_assoc (r1 r2 r3 : ratio) :
  wf r1 -> wf r2 -> wf r3 ->
  ratio_add (ratio_add r1 r2) r3 = ratio_add r1 (ratio_add r2 r3).
Proof.
  intros H1 H2 H3.
  pose proof (wf_ratio_add _ _ H1 H2). pose proof (wf_ratio_add _ _ H2 H3).
  apply canonical_eq; try (apply canonical_ratio_add; assumption).
  rewrite !to_Q_ratio_add by assumption. ring.
Qed.

Lemma ratio_multiply_assoc (r1 r2 r3 : ratio) :
  wf r1 -> wf r2 -> wf r3 ->
  ratio_multiply (ratio_multiply r1 r2) r3
  = ratio_multiply r1 (ratio_multiply r2 r3).
Proof.
  intros H1 H2 H3.
  pose proof (wf_ratio_multiply _ _ H1 H2).
  pose proof (wf_ratio_multiply _ _ H2 H3).
  apply canonical_eq; try (apply canonical_ratio_multiply; assumption).
  rewrite !to_Q_ratio_multiply by assumption. ring.
Qed.

(** Twice and three times an exponent, as [squared_base] and [cubed_base]
    write them, are the sums that [base_unit_multiply] forms. *)
Lemma ratio_multiply_2 (e : ratio) :
  wf e -> ratio_multiply e (ratio1 2) = ratio_add e e.
Proof.
  intros He. pose proof (wf_ratio1 2).
  apply canonical_eq;
    [now apply canonical_ratio_multiply | now apply canonical_ratio_add |].
  rewrite to_Q_ratio_multiply, to_Q_ratio_add, to_Q_ratio1 by assumption.
  change (inject_Z 2) with 2%Q. ring.
Qed.

Lemma ratio_multiply_3 (e : ratio) :
  wf e -> ratio_multiply e (ratio1 3)
          = ratio_add e (ratio_multiply e (ratio1 2)).
Proof.
  intros He. pose proof (wf_ratio1 2). pose proof (wf_ratio1 3).
  pose proof (wf_ratio_multiply _ _ He H).
  apply canonical_eq;
    [now apply canonical_ratio_multiply | now apply canonical_ratio_add |].
  rewrite to_Q_ratio_add, !to_Q_ratio_multiply, !to_Q_ratio1 by assumption.
  change (inject_Z 2) with 2%Q. change (inject_Z 3) with 3%Q. ring.
Qed.

(** An exponent plus its opposite is [std::ratio<0>]. *)
Lemma ratio_add_opposite (e : ratio) :
  wf e -> ratio_add e (ratio_multiply e (ratio1 (-1))) = ratio1 0.
Proof.
  intros He. pose proof (wf_ratio1 (-1)).
  pose proof (wf_ratio_multiply _ _ He H).
  apply canonical_eq;
    [now apply canonical_ratio_add | apply canonical_ratio1 |].
  rewrite to_Q_ratio_add, to_Q_ratio_multiply, !to_Q_ratio1 by assumption.
  change (inject_Z (-1)) with (-1)%Q. change (inject_Z 0) with 0%Q. ring.
Qed.

(** Subtracting is adding the opposite. *)
Lemma ratio_subtract_opposite (e1 e2 : ratio) :
  wf e1 -> wf e2 ->
  ratio_subtract e1 e2 = ratio_add e1 (ratio_multiply e2 (ratio1 (-1))).
Proof.
  intros H1 H2. pose proof (wf_ratio1 (-1)).
  pose proof (wf_ratio_multiply _ _ H2 H).
  apply canonical_eq;
    [now apply canonical_ratio_subtract | now apply canonical_ratio_add |].
  rewrite to_Q_ratio_subtract, to_Q_ratio_add, to_Q_ratio_multiply,
    to_Q_ratio1 by assumption.
  change (inject_Z (-1)) with (-1)%Q. ring.
Qed.

Lemma wf_base_unit_fields (b : base_unit) :
  wf_base_unit b <->
  wf (Meter b) /\ wf (Kilogram b) /\ wf (Second b) /\ wf (Radian b)
  /\ wf (Ampere b) /\ wf (Kelvin b) /\ wf (Mole b) /\ wf (Candela b).
Proof.
  unfold wf_base_unit, Exponents. split.
  - intros H.
    repeat match goal with
           | H : Forall _ (_ :: _) |- _ => inversion H; clear H; subst
           end.
    repeat split; assumption.
  - intros (? & ? & ? & ? & ? & ? & ? & ?). repeat constructor; assumption.
Qed.

Lemma expand2_ext_wf (f g : ratio -> ratio -> ratio) (b1 b2 : base_unit) :
  (forall e1 e2, wf e1 -> wf e2 -> f e1 e2 = g e1 e2) ->
  wf_base_unit b1 -> wf_base_unit b2 -> expand2 f b1 b2 = expand2 g b1 b2.
Proof.
  intros Hfg H1 H2. apply wf_base_unit_fields in H1, H2.
  destruct H1 as (? & ? & ? & ? & ? & ? & ? & ?).
  destruct H2 as (? & ? & ? & ? & ? & ? & ? & ?).
  unfold expand2. f_equal; apply Hfg; assumption.
Qed.

Lemma wf_expand2 (f : ratio -> ratio -> ratio) (b1 b2 : base_unit) :
  (forall e1 e2, wf e1 -> wf e2 -> wf (f e1 e2)) ->
  wf_base_unit b1 -> wf_base_unit b2 -> wf_base_unit (expand2 f b1 b2).
Proof.
  intros Hf H1 H2. apply wf_base_unit_fields in H1, H2.
  destruct H1 as (? & ? & ? & ? & ? & ? & ? & ?).
  destruct H2 as (? & ? & ? & ? & ? & ? & ? & ?).
  apply wf_base_unit_fields. unfold expand2; cbn.
  repeat split; apply Hf; assumption.
Qed.

Lemma wf_expand1 (f : ratio -> ratio) (b : base_unit) :
  (forall e, wf e -> wf (f e)) ->
  wf_base_unit b -> wf_base_unit (expand1 f b).
Proof.
  intros Hf H1. apply wf_base_unit_fields in H1.
  destruct H1 as (? & ? & ? & ? & ? & ? & ? & ?).
  apply wf_base_unit_fields. unfold expand1; cbn.
  repeat split; apply Hf; assumption.
Qed.

Lemma base_unit_multiply_comm (b1 b2 : base_unit) :
  base_unit_multiply b1 b2 = base_unit_multiply b2 b1.
Proof.
  unfold base_unit_multiply, expand2. f_equal; apply ratio_add_comm.
Qed.

Lemma base_unit_multiply_assoc (b1 b2 b3 : base_unit) :
  wf_base_unit b1 -> wf_base_unit b2 -> wf_base_unit b3 ->
  base_unit_multiply (base_unit_multiply b1 b2) b3
  = base_unit_multiply b1 (base_unit_multiply b2 b3).
Proof.
  intros H1 H2 H3. apply wf_base_unit_fields in H1, H2, H3.
  destruct H1 as (? & ? & ? & ? & ? & ? & ? & ?).
  destruct H2 as (? & ? & ? & ? & ? & ? & ? & ?).
  destruct H3 as (? & ? & ? & ? & ? & ? & ? & ?).
  unfold base_unit_multiply, expand2; cbn.
  f_equal; apply ratio_add_assoc; assumption.
Qed.

Lemma wf_unit_multiply (A B : unit) :
  wf_unit A -> wf_unit B -> wf_unit (unit_multiply A B).
Proof.
  intros HA HB.
  destruct (wf_unit_descriptor A HA) as (HcA & HpA & _ & HbA).
  destruct (wf_unit_descriptor B HB) as (HcB & HpB & _ & HbB).
  unfold unit_multiply; cbn [wf_unit]. repeat split.
  - now apply wf_ratio_multiply.
  - apply wf_expand2; auto using wf_ratio_add.
  - now apply wf_ratio_add.
  - apply wf_ratio1.
Qed.

Lemma unit_multiply_comm (A B : unit) : unit_multiply A B = unit_multiply B A.
Proof.
  unfold unit_multiply. f_equal.
  - apply ratio_multiply_comm.
  - apply base_unit_multiply_comm.
  - apply ratio_add_comm.
Qed.

Lemma unit_multiply_assoc (A B C : unit) :
  wf_unit A -> wf_unit B -> wf_unit C ->
  unit_multiply (unit_multiply A B) C = unit_multiply A (unit_multiply B C).
Proof.
  intros HA HB HC.
  destruct (wf_unit_descriptor A HA) as (HcA & HpA & _ & HbA).
  destruct (wf_unit_descriptor B HB) as (HcB & HpB & _ & HbB).
  destruct (wf_unit_descriptor C HC) as (HcC & HpC & _ & HbC).
  unfold unit_multiply;
    cbn [conversion_ratio pi_exponent_ratio base_unit_type]. f_equal.
  - now apply ratio_multiply_assoc.
  - now apply base_unit_multiply_assoc.
  - now apply ratio_add_assoc.
Qed.

End AlgebraLaws.



Lemma compound_unit_swap (U x y : unit) (l : list unit) :
  wf_unit U -> wf_unit x -> wf_unit y ->
  compound_unit U (y :: x :: l) = compound_unit U (x :: y :: l).
Proof.
  intros HU Hx Hy. cbn [compound_unit]. f_equal.
  rewrite !unit_multiply_assoc by assumption.
  now rewrite (unit_multiply_comm y x).
Qed.

Lemma compound_unit_permutation_gen (Us Vs : list unit) :
  Permutation Us Vs ->
  forall U, wf_unit U -> Forall wf_unit Us ->
            compound_unit U Us = compound_unit U Vs.
Proof.
  induction 1 as [| x l l' HP IH | x y l | l l' l'' HP1 IH1 HP2 IH2];
    intros U HU HF.
  - reflexivity.
  - cbn [compound_unit]. inversion HF; subst.
    apply IH; [now apply wf_unit_multiply | assumption].
  - inversion HF as [| ? ? Hy HF']; subst. inversion HF'; subst.
    now apply compound_unit_swap.
  - rewrite IH1 by assumption. apply IH2; [assumption|].
    now apply (Permutation_Forall HP1).
Qed.



Lemma squared_is_multiply (U : unit) :
  wf_unit U -> squared U = unit_multiply U U.
Proof.
  intros HU. destruct (wf_unit_descriptor U HU) as (Hc & Hp & _ & Hb).
  apply wf_base_unit_fields in Hb as Hf.
  destruct Hf as (Hm & Hk & Hs & Hr & Ha & Hkl & Hmo & Hcd).
  unfold squared, unit_multiply. f_equal.
  - unfold squared_base, base_unit_multiply, expand1, expand2.
    f_equal; now apply ratio_multiply_2.
  - now apply ratio_multiply_2.
Qed.

Lemma cubed_is_multiply (U : unit) :
  wf_unit U -> cubed U = unit_multiply U (squared U).
Proof.
  intros HU. destruct (wf_unit_descriptor U HU) as (Hc & Hp & _ & Hb).
  apply wf_base_unit_fields in Hb as Hf.
  destruct Hf as (Hm & Hk & Hs & Hr & Ha & Hkl & Hmo & Hcd).
  unfold cubed, squared, unit_multiply;
    cbn [conversion_ratio pi_exponent_ratio base_unit_type]. f_equal.
  - unfold cubed_base, squared_base, base_unit_multiply, expand1, expand2;
      cbn. f_equal; now apply ratio_multiply_3.
  - now apply ratio_multiply_3.
Qed.

(** X3: [squared<U>] is the same C++ type as [unit_multiply<U, U>], and
    [cubed<U>] the same as [unit_multiply<U, squared<U>>] and as
    [compound_unit<U, U, U>], for every well-formed unit [U]. *)
Theorem squared_cubed_multiply (U : unit) :
  wf_unit U ->
  squared U = unit_multiply U U
  /\ cubed U = unit_multiply U (squared U)
  /\ cubed U = compound_unit U [U; U].
Proof.
  intros HU.
  split; [now apply squared_is_multiply|].
  split; [now apply cubed_is_multiply|].
  cbn [compound_unit].
  rewrite cubed_is_multiply, squared_is_multiply by assumption.
  rewrite unit_multiply_assoc by assumption. reflexivity.
Qed.

Lemma squared_cubed_multiply_witness :
  squared length.feet = unit_multiply length.feet length.feet
  /\ cubed length.feet = unit_multiply length.feet (squared length.feet)
  /\ cubed length.feet = compound_unit length.feet [length.feet; length.feet].
Proof. apply (squared_cubed_multiply length.feet). solve_wf. Defined.

(* ------------------------------------------------------------------ *)
(** ** Inverse, quotient and powers of units *)
(* ------------------------------------------------------------------ *)

Section InverseFacts.

Lemma to_Q_nonzero (r : ratio) : wf r -> num r <> 0 -> ~ (to_Q r == 0)%Q.
Proof. intros Hw Hn E. apply Hn. now apply to_Q_zero_iff. Qed.

(** The ratio [std::ratio<R::den, R::num>] denotes the reciprocal. *)
Lemma to_Q_swap (r : ratio) :
  wf r -> num r <> 0 ->
  (to_Q (Ratio (den r) (num r)) == / to_Q r)%Q.
Proof.
  intros Hw Hn. rewrite to_Q_Ratio by exact Hn. unfold to_Q.
  pose proof (den_nonzero r Hw) as Hd.
  apply inject_Z_nonzero in Hn, Hd. field. split; assumption.
Qed.

Lemma num_swap_nonzero (r : ratio) :
  wf r -> num r <> 0 -> num (Ratio (den r) (num r)) <> 0.
Proof.
  intros Hw Hn E. apply num_zero_iff in E; [|exact Hn].
  now apply (den_nonzero r Hw).
Qed.

Lemma ratio_multiply_swap (r : ratio) :
  wf r -> num r <> 0 ->
  ratio_multiply r (Ratio (den r) (num r)) = ratio1 1.
Proof.
  intros Hw Hn.
  assert (Hs : wf (Ratio (den r) (num r))) by exact Hn.
  apply canonical_eq;
    [now apply canonical_ratio_multiply | apply canonical_ratio1 |].
  rewrite to_Q_ratio_multiply, to_Q_swap, to_Q_ratio1 by assumption.
  change (inject_Z 1) with 1%Q. field. now apply to_Q_nonzero.
Qed.

Lemma to_Q_ratio_divide (r1 r2 q : ratio) :
  wf r1 -> wf r2 -> ratio_divide r1 r2 = Some q ->
  wf q /\ canonical q /\ num r2 <> 0 /\ (to_Q q == to_Q r1 / to_Q r2)%Q.
Proof.
  intros H1 H2. unfold ratio_divide.
  destruct (num r2 =? 0) eqn:E; [discriminate|].
  apply Z.eqb_neq in E. intros [= <-].
  pose proof (den_nonzero _ H1) as Hd1. pose proof (den_nonzero _ H2) as Hd2.
  assert (Hnz : den r1 * num r2 <> 0) by nia.
  split; [now apply wf_reduced|]. split; [now apply canonical_reduced|].
  split; [exact E|].
  rewrite to_Q_reduced by exact Hnz. unfold to_Q.
  rewrite !inject_Z_mult.
  apply inject_Z_nonzero in Hd1, Hd2, E. field. repeat split; assumption.
Qed.

Lemma inverse_some (U : unit) :
  nonzero_unit U ->
  inverse U
  = Some (unit_of_base
            (Ratio (den (conversion_ratio U)) (num (conversion_ratio U)))
            (inverse_base (base_unit_type U))
            (ratio_multiply (pi_exponent_ratio U) (ratio1 (-1)))
            (ratio1 0)).
Proof.
  unfold nonzero_unit, inverse. intros Hn.
  apply Z.eqb_neq in Hn. now rewrite Hn.
Qed.

Lemma wf_mul_minus_1 (e : ratio) : wf e -> wf (ratio_multiply e (ratio1 (-1))).
Proof. intros He. apply wf_ratio_multiply; [exact He | apply wf_ratio1]. Qed.

Lemma to_Q_mul_minus_1 (e : ratio) :
  wf e -> (to_Q (ratio_multiply e (ratio1 (-1))) == - to_Q e)%Q.
Proof.
  intros He. rewrite to_Q_ratio_multiply, to_Q_ratio1
    by (auto using wf_ratio1).
  change (inject_Z (-1)) with (-1)%Q. ring.
Qed.

Lemma unit_multiply_inverse (U V : unit) :
  wf_unit U -> nonzero_unit U -> inverse U = Some V ->
  wf_unit V /\ nonzero_unit V /\ unit_multiply U V = dimensionless.scalar.
Proof.
  intros HU Hn. rewrite (inverse_some U Hn). intros [= <-].
  destruct (wf_unit_descriptor U HU) as (Hc & Hp & _ & Hb).
  apply wf_base_unit_fields in Hb as Hf.
  destruct Hf as (Hm & Hk & Hs & Hr & Ha & Hkl & Hmo & Hcd).
  split; [|split].
  - cbn [wf_unit]. repeat split.
    + exact Hn.
    + apply wf_expand1; auto using wf_mul_minus_1.
    + now apply wf_mul_minus_1.
    + apply wf_ratio1.
  - unfold nonzero_unit; cbn [conversion_ratio].
    now apply num_swap_nonzero.
  - unfold unit_multiply, dimensionless.scalar, category.scalar_unit,
      category.r0;
      cbn [conversion_ratio pi_exponent_ratio base_unit_type]. f_equal.
    + now apply ratio_multiply_swap.
    + unfold base_unit_multiply, inverse_base, expand1, expand2; cbn.
      f_equal; now apply ratio_add_opposite.
    + now apply ratio_add_opposite.
Qed.

End InverseFacts.

(** X4: for a well-formed unit [U] whose conversion factor is not zero,
    [inverse<U>] compiles, [unit_multiply<U, inverse<U>>] is exactly the
    type [dimensionless::scalar], and [inverse<inverse<U>>] has the
    dimension, the conversion factor and the pi exponent of [U], with the
    translation dropped. *)
Theorem inverse_unit (U : unit) :
  wf_unit U -> nonzero_unit U ->
  exists V W,
    inverse U = Some V /\ inverse V = Some W
    /\ unit_multiply U V = dimensionless.scalar
    /\ compound_unit U [V] = dimensionless.scalar
    /\ dim_eq (dimension W) (dimension U)
    /\ (to_Q (conversion_ratio W) == to_Q (conversion_ratio U))%Q
    /\ (to_Q (pi_exponent_ratio W) == to_Q (pi_exponent_ratio U))%Q
    /\ translation_ratio V = ratio1 0 /\ translation_ratio W = ratio1 0.
Proof.
  intros HU Hn.
  destruct (unit_multiply_inverse U _ HU Hn (inverse_some U Hn))
    as (HV & HnV & Hmul).
  destruct (wf_unit_descriptor U HU) as (Hc & Hp & _ & Hb).
  apply wf_base_unit_fields in Hb as Hf.
  destruct Hf as (Hm & Hk & Hs & Hr & Ha & Hkl & Hmo & Hcd).
  eexists. eexists.
  split; [apply (inverse_some U Hn)|].
  split; [apply (inverse_some _ HnV)|].
  split; [exact Hmul|]. split; [exact Hmul|].
  cbn [conversion_ratio pi_exponent_ratio translation_ratio base_unit_type].
  assert (Hdbl : forall e, wf e ->
            (to_Q (ratio_multiply (ratio_multiply e (ratio1 (-1)))
                                  (ratio1 (-1))) == to_Q e)%Q).
  { intros e He. rewrite !to_Q_mul_minus_1 by auto using wf_mul_minus_1.
    ring. }
  split; [|split; [|split; [|split; reflexivity]]].
  - unfold dim_eq, dimension, inverse_base, expand1, Exponents;
      cbn [base_unit_type Meter Kilogram Second Radian Ampere Kelvin Mole
           Candela map].
    repeat (apply Forall2_cons; [apply Hdbl; assumption|]).
    apply Forall2_nil.
  - rewrite to_Q_swap; [|exact Hn | now apply num_swap_nonzero].
    rewrite to_Q_swap by assumption. apply Qinv_involutive.
  - now apply Hdbl.
Qed.

Lemma inverse_unit_witness :
  exists V W,
    inverse time.hours = Some V /\ inverse V = Some W
    /\ unit_multiply time.hours V = dimensionless.scalar
    /\ compound_unit time.hours [V] = dimensionless.scalar
    /\ dim_eq (dimension W) (dimension time.hours)
    /\ (to_Q (conversion_ratio W) == to_Q (conversion_ratio time.hours))%Q
    /\ (to_Q (pi_exponent_ratio W) == to_Q (pi_exponent_ratio time.hours))%Q
    /\ translation_ratio V = ratio1 0 /\ translation_ratio W = ratio1 0.
Proof.
  apply (inverse_unit time.hours); [solve_wf | vm_compute; discriminate].
Defined.



Section PowerFacts.

Lemma dim_eq_trans (l1 l2 l3 : list Q) :
  dim_eq l1 l2 -> dim_eq l2 l3 -> dim_eq l1 l3.
Proof.
  unfold dim_eq. intros H12. revert l3.
  induction H12 as [| x y l l' Hxy _ IH]; intros l3 H23;
    inversion H23; subst; constructor.
  - now rewrite Hxy.
  - now apply IH.
Qed.

Lemma dim_add_scale (n : Q) (l l' : list Q) :
  dim_eq l' (map (Qmult n) l) ->
  dim_eq (dim_add l l') (map (Qmult (1 + n)) l).
Proof.
  unfold dim_eq, dim_add. revert l'.
  induction l as [| a l IH]; intros l' H; inversion H; subst; cbn.
  - constructor.
  - constructor; [|now apply IH].
    match goal with E : (_ == n * a)%Q |- _ => rewrite E end. ring.
Qed.

Lemma dim_eq_map_ext (f g : Q -> Q) (l : list Q) :
  (forall x, (f x == g x)%Q) -> dim_eq (map f l) (map g l).
Proof.
  intros Hfg. unfold dim_eq.
  induction l; cbn; constructor; [apply Hfg | assumption].
Qed.

Lemma dim_eq_refl (l : list Q) : dim_eq l l.
Proof. unfold dim_eq. induction l; constructor; [reflexivity | assumption]. Qed.

Lemma wf_power_unit_succ (k : nat) (U : unit) :
  wf_unit U -> wf_unit (_power_unit_succ k U).
Proof.
  intros HU. induction k; cbn [_power_unit_succ];
    [assumption | now apply wf_unit_multiply].
Qed.

Lemma power_unit_succ_descriptor (k : nat) (U : unit) :
  wf_unit U ->
  let n := inject_Z (Z.of_nat (S k)) in
  let P := _power_unit_succ k U in
  dim_eq (dimension P) (map (Qmult n) (dimension U))
  /\ (to_Q (pi_exponent_ratio P) == n * to_Q (pi_exponent_ratio U))%Q
  /\ (to_Q (conversion_ratio P)
      == to_Q (conversion_ratio U) ^ Z.of_nat (S k))%Q.
Proof.
  intros HU. induction k as [| k IH].
  - cbn zeta. cbn [_power_unit_succ]. change (inject_Z (Z.of_nat 1)) with 1%Q.
    split; [|split].
    + rewrite <- (map_id (dimension U)) at 1.
      apply dim_eq_map_ext. intros x. ring.
    + ring.
    + change (Z.of_nat 1) with 1. now rewrite Qpower_1_r.
  - cbn zeta in *. destruct IH as (IHd & IHp & IHc).
    pose proof (wf_power_unit_succ k U HU) as HP.
    destruct (wf_unit_descriptor U HU) as (Hc & Hp & _ & Hb).
    destruct (wf_unit_descriptor _ HP) as (HcP & HpP & _ & HbP).
    assert (En : (inject_Z (Z.of_nat (S (S k)))
                  == 1 + inject_Z (Z.of_nat (S k)))%Q).
    { rewrite <- (inject_Z_plus 1). apply inject_Z_injective. lia. }
    cbn [_power_unit_succ].
    split; [|split].
    + apply (dim_eq_trans _ (dim_add (dimension U)
                                     (dimension (_power_unit_succ k U)))).
      * unfold dim_eq, dimension, dim_add, unit_multiply;
          cbn [base_unit_type].
        apply (dimension_expand2 ratio_add Qplus); auto using to_Q_ratio_add.
      * apply (dim_eq_trans _ _ _ (dim_add_scale _ _ _ IHd)).
        apply dim_eq_map_ext. intros x. now rewrite En.
    + unfold unit_multiply; cbn [pi_exponent_ratio].
      rewrite to_Q_ratio_add, IHp, En by assumption. ring.
    + unfold unit_multiply; cbn [conversion_ratio].
      rewrite to_Q_ratio_multiply, IHc by assumption.
      replace (Z.of_nat (S (S k))) with (1 + Z.of_nat (S k)) by lia.
      rewrite Qpower_plus' by lia. now rewrite Qpower_1_r.
Qed.

End PowerFacts.



(* ------------------------------------------------------------------ *)
(** ** The conversion as one affine map *)
(* ------------------------------------------------------------------ *)

Section ConvertAffine.

Lemma to_R_ratio_subtract (r1 r2 : ratio) :
  wf r1 -> wf r2 -> to_R (ratio_subtract r1 r2) = (to_R r1 - to_R r2)%R.
Proof.
  intros H1 H2. apply den_nonzero in H1, H2. unfold ratio_subtract.
  rewrite to_R_reduced by lia. unfold to_R.
  rewrite minus_IZR, !mult_IZR.
  apply not_0_IZR in H1, H2. field. split; assumption.
Qed.

Lemma to_R_ratio1_0 : to_R (ratio1 0) = 0%R.
Proof. unfold to_R. change (num (ratio1 0)) with 0. apply Rdiv_IZR_0. Qed.

Lemma to_R_nonzero (r : ratio) : wf r -> num r <> 0 -> to_R r <> 0%R.
Proof.
  intros Hw Hn. apply den_nonzero in Hw. unfold to_R.
  apply not_0_IZR in Hw, Hn. intros E.
  apply Hn. apply (Rmult_eq_reg_r (/ IZR (den r))).
  - rewrite Rmult_0_l. exact E.
  - now apply Rinv_neq_0_compat.
Qed.

Lemma to_R_eq_of_to_Q (r1 r2 : ratio) :
  wf r1 -> wf r2 -> (to_Q r1 == to_Q r2)%Q -> to_R r1 = to_R r2.
Proof.
  intros H1 H2 E. rewrite <- !Q2R_to_Q by assumption. now apply Qeq_eqR.
Qed.

Lemma tag_false (r1 r2 : ratio) :
  negb (ratio_eqb (ratio1 0) r1 && ratio_eqb (ratio1 0) r2) = false ->
  r1 = ratio1 0 /\ r2 = ratio1 0.
Proof.
  intros H. apply negb_false_iff, andb_true_iff in H.
  destruct H as [E1 E2]. apply ratio_eqb_eq in E1, E2. now subst.
Qed.

(** Whatever overload the dispatch selects, the value returned is the same
    affine function of [x]. *)
Lemma convert_affine (From To : unit) (x : R) :
  wf_unit From -> wf_unit To ->
  base_unit_type From = base_unit_type To ->
  nonzero_unit To ->
  convert From To x
  = Some (x * (to_R (conversion_ratio From) / to_R (conversion_ratio To))
          * std_pow constants.PI (to_R (pi_exponent_ratio From)
                                  - to_R (pi_exponent_ratio To))
          + (to_R (translation_ratio From) - to_R (translation_ratio To))
            / to_R (conversion_ratio To))%R.
Proof.
  intros HwF HwT Hdim HnT.
  destruct (wf_unit_descriptor From HwF) as (HcF & HpF & HtF & _).
  destruct (wf_unit_descriptor To HwT) as (HcT & HpT & HtT & _).
  pose proof (to_R_nonzero _ HcT HnT) as HcT0.
  assert (Hpow0 : std_pow constants.PI 0 = 1%R)
    by (apply Rpower_O, PI_RGT_0).
  destruct (unit_eqb From To) eqn:Esame.
  { apply unit_eqb_eq in Esame. subst To. rewrite convert_same. f_equal.
    rewrite !Rminus_diag, Hpow0. field. exact HcT0. }
  destruct (ratio_divide_some _ _ HcF HcT HnT) as (q & Hq & Hwq & HqR).
  destruct (ratio_divide_some _ _ (wf_ratio_subtract _ _ HtF HtT) HcT HnT)
    as (t & Ht & Hwt & HtR).
  rewrite to_R_ratio_subtract in HtR by assumption.
  assert (Hval : forall y, (IZR (num q) * y / IZR (den q)
                            = y * (to_R (conversion_ratio From)
                                   / to_R (conversion_ratio To)))%R).
  { intros y. rewrite <- HqR. unfold to_R.
    pose proof (den_nonzero q Hwq) as Hd. apply not_0_IZR in Hd.
    field. exact Hd. }
  assert (Hpi : (IZR (num (ratio_subtract (pi_exponent_ratio From)
                                          (pi_exponent_ratio To)))
                 / IZR (den (ratio_subtract (pi_exponent_ratio From)
                                            (pi_exponent_ratio To)))
                 = to_R (pi_exponent_ratio From)
                   - to_R (pi_exponent_ratio To))%R)
    by (now rewrite <- to_R_ratio_subtract).
  assert (Htr : (IZR (num t) / IZR (den t)
                 = (to_R (translation_ratio From)
                    - to_R (translation_ratio To))
                   / to_R (conversion_ratio To))%R) by exact HtR.
  rewrite (convert_dispatch From To x false _ _
             ltac:(now apply is_convertible_unit_iff) Esame eq_refl eq_refl).
  unfold _convert.
  destruct (negb (ratio_eqb (ratio1 0) (pi_exponent_ratio From) && _))
    eqn:Epi;
    destruct (negb (ratio_eqb (ratio1 0) (translation_ratio From) && _))
      eqn:Etr;
    rewrite Hq; try rewrite Ht; f_equal; rewrite Hval;
    try rewrite Hpi; try rewrite Htr;
    try (apply tag_false in Epi; destruct Epi as [-> ->]);
    try (apply tag_false in Etr; destruct Etr as [-> ->]);
    rewrite ?to_R_ratio1_0, ?Rminus_diag, ?Hpow0;
    try reflexivity; field; exact HcT0.
Qed.

End ConvertAffine.



(** Degrees to radians takes the overload with pi: 180 degrees are PI. *)
Example convert_degrees_radians (x : R) :
  convert angle.degrees angle.radians x = Some (x * Rtrigo1.PI / 180)%R.
Proof.
  rewrite convert_affine;
    [| solve_wf | solve_wf | reflexivity | vm_compute; discriminate].
  f_equal.
  replace (to_R (conversion_ratio angle.degrees)) with (1 / 180)%R
    by (unfold to_R;
        replace (num (conversion_ratio angle.degrees)) with 1 by by_eval;
        replace (den (conversion_ratio angle.degrees)) with 180 by by_eval;
        reflexivity).
  replace (to_R (conversion_ratio angle.radians)) with (1 / 1)%R
    by (unfold to_R;
        replace (num (conversion_ratio angle.radians)) with 1 by by_eval;
        replace (den (conversion_ratio angle.radians)) with 1 by by_eval;
        reflexivity).
  replace (to_R (pi_exponent_ratio angle.degrees)) with (1 / 1)%R
    by (unfold to_R;
        replace (num (pi_exponent_ratio angle.degrees)) with 1 by by_eval;
        replace (den (pi_exponent_ratio angle.degrees)) with 1 by by_eval;
        reflexivity).
  replace (to_R (pi_exponent_ratio angle.radians)) with 0%R
    by (symmetry; apply to_R_ratio1_0).
  replace (to_R (translation_ratio angle.degrees)) with 0%R
    by (unfold to_R;
        replace (num (translation_ratio angle.degrees)) with 0 by by_eval;
        symmetry; apply Rdiv_IZR_0).
  replace (to_R (translation_ratio angle.radians)) with 0%R
    by (symmetry; apply to_R_ratio1_0).
  replace (1 / 1 - 0)%R with 1%R by lra.
  unfold std_pow, constants.PI. rewrite Rpower_1 by apply PI_RGT_0. field.
Qed.

Section ConvertCompose.

Lemma std_pow_PI_plus (a b : R) :
  (std_pow constants.PI a * std_pow constants.PI b
   = std_pow constants.PI (a + b))%R.
Proof. unfold std_pow. symmetry. apply Rpower_plus. Qed.

Lemma std_pow_PI_pos (a : R) : (0 < std_pow constants.PI a)%R.
Proof. unfold std_pow, Rpower. apply exp_pos. Qed.

(** Converting through an intermediate unit. *)
Lemma convert_compose (A B C : unit) (x : R) :
  wf_unit A -> wf_unit B -> wf_unit C ->
  base_unit_type A = base_unit_type B ->
  base_unit_type B = base_unit_type C ->
  nonzero_unit B -> nonzero_unit C ->
  (to_Q (pi_exponent_ratio B) == to_Q (pi_exponent_ratio C))%Q
  \/ (to_Q (translation_ratio A) == to_Q (translation_ratio B))%Q ->
  exists y, convert A B x = Some y /\ convert B C y = convert A C x.
Proof.
  intros HA HB HC HAB HBC HnB HnC Hor.
  destruct (wf_unit_descriptor A HA) as (HcA & HpA & HtA & _).
  destruct (wf_unit_descriptor B HB) as (HcB & HpB & HtB & _).
  destruct (wf_unit_descriptor C HC) as (HcC & HpC & HtC & _).
  pose proof (to_R_nonzero _ HcB HnB) as HB0.
  pose proof (to_R_nonzero _ HcC HnC) as HC0.
  eexists. split; [now apply convert_affine|].
  rewrite !convert_affine by (assumption || congruence). f_equal.
  pose proof (std_pow_PI_plus
                (to_R (pi_exponent_ratio A) - to_R (pi_exponent_ratio B))
                (to_R (pi_exponent_ratio B) - to_R (pi_exponent_ratio C)))
    as Hp.
  replace (to_R (pi_exponent_ratio A) - to_R (pi_exponent_ratio B)
           + (to_R (pi_exponent_ratio B) - to_R (pi_exponent_ratio C)))%R
    with (to_R (pi_exponent_ratio A) - to_R (pi_exponent_ratio C))%R
    in Hp by ring.
  rewrite <- Hp.
  destruct Hor as [E | E]; apply to_R_eq_of_to_Q in E; try assumption.
  - rewrite E, !Rminus_diag.
    replace (std_pow constants.PI 0) with 1%R
      by (symmetry; apply Rpower_O, PI_RGT_0).
    field. split; assumption.
  - rewrite E, !Rminus_diag. field. split; assumption.
Qed.

Lemma convert_round_trip_aux (A B : unit) (x : R) :
  wf_unit A -> wf_unit B ->
  base_unit_type A = base_unit_type B ->
  nonzero_unit A -> nonzero_unit B ->
  (to_Q (pi_exponent_ratio A) == to_Q (pi_exponent_ratio B))%Q
  \/ (to_Q (translation_ratio A) == to_Q (translation_ratio B))%Q ->
  exists y, convert A B x = Some y /\ convert B A y = Some x.
Proof.
  intros HA HB HAB HnA HnB Hor.
  destruct (convert_compose A B A x) as (y & Hy & Hback);
    try assumption; try congruence.
  - destruct Hor as [E | E]; [left; now symmetry | now right].
  - exists y. split; [exact Hy|]. now rewrite Hback, convert_same.
Qed.

(** With positive conversion factors the conversion is increasing. *)
Lemma convert_monotone (From To : unit) (x y vx vy : R) :
  wf_unit From -> wf_unit To ->
  base_unit_type From = base_unit_type To ->
  0 < num (conversion_ratio From) -> 0 < num (conversion_ratio To) ->
  convert From To x = Some vx -> convert From To y = Some vy ->
  (x <= y)%R -> (vx <= vy)%R.
Proof.
  intros HF HT Hdim HnF HnT Hx Hy Hle.
  assert (HnzT : nonzero_unit To) by (unfold nonzero_unit; lia).
  rewrite convert_affine in Hx, Hy by assumption.
  injection Hx as <-. injection Hy as <-.
  destruct (wf_unit_descriptor From HF) as (HcF & _).
  destruct (wf_unit_descriptor To HT) as (HcT & _).
  assert (Hpos : forall r, wf r -> 0 < num r -> (0 < to_R r)%R).
  { intros r Hr Hn. unfold to_R.
    destruct r as [n d]. pose proof (den_pos n d Hr) as Hd.
    apply Rdiv_lt_0_compat; now apply IZR_lt. }
  pose proof (Hpos _ HcF HnF) as HpF. pose proof (Hpos _ HcT HnT) as HpT.
  pose proof (std_pow_PI_pos (to_R (pi_exponent_ratio From)
                              - to_R (pi_exponent_ratio To))) as Hpp.
  apply Rplus_le_compat_r.
  apply Rmult_le_compat_r; [lra|].
  apply Rmult_le_compat_r; [|exact Hle].
  apply Rlt_le. now apply Rdiv_lt_0_compat.
Qed.

End ConvertCompose.





(* ------------------------------------------------------------------ *)
(** ** Comparisons with the operands exchanged, and rejected operands *)
(* ------------------------------------------------------------------ *)

Section ComparisonFacts.

Lemma Reqb_iff (a b c d : R) : (a = b <-> c = d) -> Reqb a b = Reqb c d.
Proof.
  unfold Reqb. intros H.
  destruct (Req_dec_T a b), (Req_dec_T c d); tauto || reflexivity.
Qed.

Lemma Rleb_Rgeb_iff (a b c d : R) :
  ((a <= b)%R <-> (c >= d)%R) -> Rleb a b = Rgeb c d.
Proof.
  unfold Rleb, Rgeb. intros H.
  destruct (Rle_dec a b), (Rge_dec c d); tauto || reflexivity.
Qed.

Lemma Rgeb_Rleb_iff (a b c d : R) :
  ((a >= b)%R <-> (c <= d)%R) -> Rgeb a b = Rleb c d.
Proof.
  unfold Rleb, Rgeb. intros H.
  destruct (Rge_dec a b), (Rle_dec c d); tauto || reflexivity.
Qed.

End ComparisonFacts.





(* ------------------------------------------------------------------ *)
(** ** Arithmetic in the coherent units *)
(* ------------------------------------------------------------------ *)

Section BaseUnits.

Lemma to_R_ratio_multiply (r1 r2 : ratio) :
  wf r1 -> wf r2 -> to_R (ratio_multiply r1 r2) = (to_R r1 * to_R r2)%R.
Proof.
  intros H1 H2. apply den_nonzero in H1, H2. unfold ratio_multiply.
  rewrite to_R_reduced by lia. unfold to_R. rewrite !mult_IZR.
  apply not_0_IZR in H1, H2. field. split; assumption.
Qed.

Lemma to_R_ratio_add (r1 r2 : ratio) :
  wf r1 -> wf r2 -> to_R (ratio_add r1 r2) = (to_R r1 + to_R r2)%R.
Proof.
  intros H1 H2. apply den_nonzero in H1, H2. unfold ratio_add.
  rewrite to_R_reduced by lia. unfold to_R. rewrite plus_IZR, !mult_IZR.
  apply not_0_IZR in H1, H2. field. split; assumption.
Qed.

Lemma to_R_ratio1 (n : Z) : to_R (ratio1 n) = IZR n.
Proof.
  unfold ratio1. rewrite to_R_Ratio by lia. field.
Qed.

Lemma to_R_swap (r : ratio) :
  wf r -> num r <> 0 -> to_R (Ratio (den r) (num r)) = (/ to_R r)%R.
Proof.
  intros Hw Hn. rewrite to_R_Ratio by exact Hn. unfold to_R.
  pose proof (den_nonzero r Hw) as Hd.
  apply not_0_IZR in Hn, Hd. field. split; assumption.
Qed.

Lemma to_R_no_translation (U : unit) :
  wf_unit U -> no_translation U -> to_R (translation_ratio U) = 0%R.
Proof.
  intros HU Hz. destruct (wf_unit_descriptor U HU) as (_ & _ & Ht & _).
  apply to_Q_zero_iff in Hz; [|exact Ht].
  unfold to_R. rewrite Hz. apply Rdiv_IZR_0.
Qed.

Lemma wf_coherent_unit (b : base_unit) :
  wf_base_unit b -> wf_unit (coherent_unit b).
Proof.
  intros Hb. unfold coherent_unit; cbn [wf_unit].
  repeat split; try apply wf_ratio1. exact Hb.
Qed.

(** The value in the coherent unit, from the descriptor. *)
Lemma in_base_units_value (q : unit_t) :
  wf_unit (unit_type q) ->
  in_base_units q
  = Some (m_value q * to_R (conversion_ratio (unit_type q))
          * std_pow constants.PI (to_R (pi_exponent_ratio (unit_type q)))
          + to_R (translation_ratio (unit_type q)))%R.
Proof.
  intros HU. destruct (wf_unit_descriptor _ HU) as (_ & _ & _ & Hb).
  unfold in_base_units.
  rewrite convert_affine;
    [| exact HU | now apply wf_coherent_unit | reflexivity
     | unfold nonzero_unit; cbn; lia].
  unfold coherent_unit;
    cbn [conversion_ratio pi_exponent_ratio translation_ratio].
  rewrite to_R_ratio1, to_R_ratio1_0. f_equal.
  rewrite !Rminus_0_r. field.
Qed.

Lemma std_pow_PI_nonzero (a : R) : std_pow constants.PI a <> 0%R.
Proof. pose proof (std_pow_PI_pos a). lra. Qed.

Variables lhs rhs : unit_t.
Hypothesis HwL : wf_unit (unit_type lhs).
Hypothesis HwR : wf_unit (unit_type rhs).
Hypothesis HnL : nonzero_unit (unit_type lhs).
Hypothesis HnR : nonzero_unit (unit_type rhs).
Hypothesis HtL : no_translation (unit_type lhs).
Hypothesis HtR : no_translation (unit_type rhs).
Hypothesis Hlin : has_linear_scale [lhs; rhs] = true.

Let cL := to_R (conversion_ratio (unit_type lhs)).
Let cR := to_R (conversion_ratio (unit_type rhs)).
Let pL := to_R (pi_exponent_ratio (unit_type lhs)).
Let pR := to_R (pi_exponent_ratio (unit_type rhs)).

Lemma base_value_lhs :
  in_base_units lhs = Some (m_value lhs * cL * std_pow constants.PI pL)%R.
Proof.
  rewrite in_base_units_value, to_R_no_translation by assumption.
  f_equal. unfold cL, pL. ring.
Qed.

Lemma base_value_rhs :
  in_base_units rhs = Some (m_value rhs * cR * std_pow constants.PI pR)%R.
Proof.
  rewrite in_base_units_value, to_R_no_translation by assumption.
  f_equal. unfold cR, pR. ring.
Qed.

Lemma convert_rhs_to_lhs :
  base_unit_type (unit_type lhs) = base_unit_type (unit_type rhs) ->
  convert (unit_type rhs) (unit_type lhs) (m_value rhs)
  = Some (m_value rhs * (cR / cL) * std_pow constants.PI (pR - pL))%R.
Proof.
  intros Hdim. rewrite convert_affine by (assumption || now symmetry).
  rewrite !to_R_no_translation by assumption. f_equal.
  unfold cL, cR, pL, pR. rewrite Rminus_diag. unfold Rdiv. ring.
Qed.

Lemma cL_nonzero : cL <> 0%R.
Proof.
  destruct (wf_unit_descriptor _ HwL) as (Hc & _).
  now apply to_R_nonzero.
Qed.

Lemma cR_nonzero : cR <> 0%R.
Proof.
  destruct (wf_unit_descriptor _ HwR) as (Hc & _).
  now apply to_R_nonzero.
Qed.

Lemma op_mul_in_base_units :
  exists q,
    op_mul lhs rhs = Some q
    /\ in_base_units q
       = Some ((m_value lhs * cL * std_pow constants.PI pL)
               * (m_value rhs * cR * std_pow constants.PI pR))%R.
Proof.
  destruct (wf_unit_descriptor _ HwL) as (HcL & HpL & _ & _).
  destruct (wf_unit_descriptor _ HwR) as (HcR & HpR & _ & _).
  pose proof cL_nonzero as HcL0.
  destruct (is_convertible_unit_t lhs rhs) eqn:Econv.
  - apply is_convertible_unit_iff in Econv as Hdim.
    eexists. split.
    + apply op_mul_convertible; [exact Hlin | exact Econv |].
      now apply convert_rhs_to_lhs.
    + rewrite in_base_units_value; cbn [unit_type m_value];
        [| rewrite squared_is_multiply by assumption;
           now apply wf_unit_multiply].
      unfold squared;
        cbn [conversion_ratio pi_exponent_ratio translation_ratio].
      rewrite !to_R_ratio_multiply, to_R_ratio1, to_R_ratio1_0
        by (assumption || apply wf_ratio1).
      fold cL pL. f_equal.
      pose proof (std_pow_PI_plus (pR - pL) (pL * 2)) as E1.
      pose proof (std_pow_PI_plus pL pR) as E2.
      replace (pR - pL + pL * 2)%R with (pL + pR)%R in E1 by ring.
      transitivity (m_value lhs * m_value rhs * cR * cL
                    * (std_pow constants.PI (pR - pL)
                       * std_pow constants.PI (pL * 2)))%R;
        [field; exact HcL0 | rewrite E1, <- E2; ring].
  - eexists. split.
    + now apply op_mul_not_convertible.
    + rewrite in_base_units_value; cbn [unit_type m_value];
        [| now apply wf_unit_multiply].
      unfold unit_multiply;
        cbn [conversion_ratio pi_exponent_ratio translation_ratio].
      rewrite to_R_ratio_multiply, to_R_ratio_add, to_R_ratio1_0
        by assumption.
      fold cL cR pL pR. f_equal.
      rewrite <- std_pow_PI_plus. ring.
Qed.

Lemma op_div_in_base_units :
  m_value rhs <> 0%R ->
  exists q,
    op_div lhs rhs = Some q
    /\ in_base_units q
       = Some ((m_value lhs * cL * std_pow constants.PI pL)
               / (m_value rhs * cR * std_pow constants.PI pR))%R.
Proof.
  intros Hm.
  destruct (wf_unit_descriptor _ HwL) as (HcL & HpL & _ & _).
  destruct (wf_unit_descriptor _ HwR) as (HcR & HpR & _ & _).
  pose proof cL_nonzero as HcL0. pose proof cR_nonzero as HcR0.
  pose proof (std_pow_PI_nonzero pL) as HA.
  pose proof (std_pow_PI_nonzero pR) as HB.
  unfold op_div. rewrite Hlin.
  destruct (is_convertible_unit_t lhs rhs) eqn:Econv.
  - apply is_convertible_unit_iff in Econv as Hdim.
    rewrite convert_rhs_to_lhs by exact Hdim.
    eexists. split; [reflexivity|].
    unfold in_base_units, dimensionless.scalar_t, unit_t_of;
      cbn [unit_type m_value scale_value].
    change (coherent_unit (base_unit_type dimensionless.scalar))
      with dimensionless.scalar.
    rewrite convert_same. f_equal.
    pose proof (std_pow_PI_plus pL (pR - pL)) as E.
    replace (pL + (pR - pL))%R with pR in E by ring.
    rewrite <- E.
    pose proof (std_pow_PI_nonzero (pR - pL)) as HD.
    field. repeat split; assumption.
  - destruct (unit_multiply_inverse _ _ HwR HnR (inverse_some _ HnR))
      as (HwV & _ & _).
    rewrite (inverse_some _ HnR).
    eexists. split; [reflexivity|].
    unfold unit_t_of; cbn [scale_value compound_unit].
    rewrite in_base_units_value; cbn [unit_type m_value];
      [| now apply wf_unit_multiply].
    unfold unit_multiply;
      cbn [conversion_ratio pi_exponent_ratio translation_ratio].
    rewrite to_R_ratio_multiply, to_R_ratio_add, to_R_ratio_multiply,
      to_R_swap, to_R_ratio1, to_R_ratio1_0
      by (assumption || apply wf_ratio1 || exact HnR
          || (apply wf_ratio_multiply; [assumption | apply wf_ratio1])).
    fold cL cR pL pR. f_equal.
    pose proof (std_pow_PI_plus pR (pL + pR * -1)) as E.
    replace (pR + (pL + pR * -1))%R with pL in E by ring.
    rewrite <- E.
    pose proof (std_pow_PI_nonzero (pL + pR * -1)) as HD.
    field. repeat split; assumption.
Qed.

End BaseUnits.

Lemma linear_scales_same (lhs rhs : unit_t) :
  has_linear_scale [lhs; rhs] = true -> is_same_scale lhs rhs = true.
Proof.
  unfold has_linear_scale, is_same_scale; cbn [forallb].
  destruct (non_linear_scale_type lhs), (non_linear_scale_type rhs);
    cbn; congruence.
Qed.

Lemma op_add_sub_in_base_units (lhs rhs : unit_t) :
  wf_unit (unit_type lhs) -> wf_unit (unit_type rhs) ->
  nonzero_unit (unit_type lhs) ->
  no_translation (unit_type lhs) -> no_translation (unit_type rhs) ->
  has_linear_scale [lhs; rhs] = true ->
  base_unit_type (unit_type lhs) = base_unit_type (unit_type rhs) ->
  exists v1 v2 s d,
    in_base_units lhs = Some v1 /\ in_base_units rhs = Some v2
    /\ op_add lhs rhs = Some s /\ unit_type s = unit_type lhs
    /\ in_base_units s = Some (v1 + v2)%R
    /\ op_sub lhs rhs = Some d /\ unit_type d = unit_type lhs
    /\ in_base_units d = Some (v1 - v2)%R.
Proof.
  intros HwL HwR HnL HtL HtR Hlin Hdim.
  destruct (wf_unit_descriptor _ HwL) as (HcL & _).
  pose proof (to_R_nonzero _ HcL HnL) as HcL0.
  pose proof (convert_rhs_to_lhs lhs rhs HwL HwR HnL HtL HtR Hdim) as Hcv.
  pose proof (std_pow_PI_plus
                (to_R (pi_exponent_ratio (unit_type rhs))
                 - to_R (pi_exponent_ratio (unit_type lhs)))
                (to_R (pi_exponent_ratio (unit_type lhs)))) as E.
  replace (to_R (pi_exponent_ratio (unit_type rhs))
           - to_R (pi_exponent_ratio (unit_type lhs))
           + to_R (pi_exponent_ratio (unit_type lhs)))%R
    with (to_R (pi_exponent_ratio (unit_type rhs))) in E by ring.
  do 4 eexists.
  split; [now apply base_value_lhs|]. split; [now apply base_value_rhs|].
  unfold op_add, op_sub.
  rewrite (linear_scales_same _ _ Hlin), Hlin, Hcv; cbn [negb].
  split; [reflexivity|]. split; [reflexivity|].
  split; [|split; [reflexivity|split; [reflexivity|]]].
  - rewrite in_base_units_value by exact HwL.
    unfold unit_t_of; cbn [unit_type m_value scale_value].
    rewrite to_R_no_translation by assumption. f_equal.
    rewrite <- E. field. exact HcL0.
  - rewrite in_base_units_value by exact HwL.
    unfold unit_t_of; cbn [unit_type m_value scale_value].
    rewrite to_R_no_translation by assumption. f_equal.
    rewrite <- E. field. exact HcL0.
Qed.





(* ------------------------------------------------------------------ *)
(** ** The decibel scale, read back *)
(* ------------------------------------------------------------------ *)

Section DecibelFacts.

Lemma ln_10_pos : (0 < ln 10)%R.
Proof. rewrite <- ln_1. apply ln_increasing; lra. Qed.

Lemma std_log10_pow (y : R) : std_log10 (std_pow 10 y) = y.
Proof.
  unfold std_log10, std_pow, Rlog, Rpower. rewrite ln_exp.
  pose proof ln_10_pos. field. lra.
Qed.

Lemma std_pow_10_plus (a b : R) :
  (std_pow 10 (a / 10) * std_pow 10 (b / 10)
   = std_pow 10 ((a + b) / 10))%R.
Proof.
  unfold std_pow. rewrite <- Rpower_plus. f_equal. field.
Qed.

Lemma std_pow_10_minus (a b : R) :
  (std_pow 10 (a / 10) / std_pow 10 (b / 10)
   = std_pow 10 ((a - b) / 10))%R.
Proof.
  unfold std_pow, Rdiv at 1. rewrite <- Rpower_Ropp, <- Rpower_plus.
  f_equal. field.
Qed.

Lemma scale_call_decibel (x : R) :
  scale_call decibel_scale (std_pow 10 (x / 10)) = x.
Proof. cbn [scale_call]. rewrite std_log10_pow. field. Qed.

End DecibelFacts.


Lemma decibel_pair_tests (U : unit) (a b : R) :
  let lhs := unit_t_of U decibel_scale a in
  let rhs := unit_t_of U decibel_scale b in
  is_same_scale lhs rhs = true
  /\ has_linear_scale [lhs; rhs] = false
  /\ has_decibel_scale [lhs; rhs] = true
  /\ negb (is_scalar_unit lhs) && is_dB_t rhs = false
  /\ negb (is_scalar_unit rhs) && is_dB_t lhs = false.
Proof.
  cbn zeta. repeat split; try reflexivity.
  - destruct (is_dB_t _) eqn:E; [|apply andb_false_r].
    apply is_dB_t_scalar in E. cbn [unit_type unit_t_of] in E.
    unfold is_scalar_unit; cbn [unit_type unit_t_of].
    now rewrite base_unit_of_type, E, base_unit_eqb_refl.
  - destruct (is_dB_t _) eqn:E; [|apply andb_false_r].
    apply is_dB_t_scalar in E. cbn [unit_type unit_t_of] in E.
    unfold is_scalar_unit; cbn [unit_type unit_t_of].
    now rewrite base_unit_of_type, E, base_unit_eqb_refl.
Qed.





(* ------------------------------------------------------------------ *)
(** ** Powers of quantities, and quantities re-expressed *)
(* ------------------------------------------------------------------ *)





(** A decibel quantity converted to a linear one of the same unit holds the
    linear magnitude, and converted back it reads as before. *)
Example decibel_to_linear (x : R) :
  unit_t_from power.watts linear_scale (power.dBW_t x)
  = Some (mk_unit_t power.watts linear_scale (std_pow 10 (x / 10)))
  /\ (forall l, unit_t_from power.watts linear_scale (power.dBW_t x) = Some l ->
      exists d, unit_t_from power.watts decibel_scale l = Some d
                /\ call d = x).
Proof.
  unfold unit_t_from, power.dBW_t, unit_t_of;
    cbn [unit_type m_value scale_value].
  rewrite convert_same. split; [reflexivity|].
  intros l [= <-]. cbn [unit_type m_value]. rewrite convert_same.
  eexists. split; [reflexivity|]. apply scale_call_decibel.
Qed.
